(** * A shallow embedding of the private library loader of DynamoRIO
    (core/win32/loader.c): the module registry, mapping and relocation,
    import binding with forwarders and IAT page protection, entry dispatch,
    unloading, and the process-heap redirection routines.

    Pointers are modelled as [Z] addresses ([X64] build, pointer-sized words
    of 8 bytes).  A [privmod_t *] is represented by the module's base, which is
    unique among the live modules.  The loader runs with
    [dynamo_heap_initialized] set (the phase after [loader_init]); the
    pre-heap static array is not modelled.  Loops and recursion that the C code
    runs until a terminator is found are given a fuel argument; running out of
    fuel reports failure. *)

From Stdlib Require Import String Ascii List ZArith Bool Lia.
Import ListNotations.
Open Scope Z_scope.

(** ** Constants of the build and of the PE format *)

Definition X64 : bool := true.
Definition PTR_SZ : Z := if X64 then 8 else 4.
Definition IMAGE_ORDINAL_FLAG64 : Z := 2 ^ 63.
Definition IMAGE_ORDINAL_FLAG32 : Z := 2 ^ 31.
Definition IMAGE_ORDINAL_FLAG : Z :=
  if X64 then IMAGE_ORDINAL_FLAG64 else IMAGE_ORDINAL_FLAG32.
Definition ORDINAL_BIT : Z := if X64 then 63 else 31.
Definition PAGE_SIZE : Z := 4096.
Definition PAGE_START (a : Z) : Z := Z.land a (Z.lnot (PAGE_SIZE - 1)).
Definition PAGE_READONLY : Z := 2.
Definition PAGE_READWRITE : Z := 4.
Definition MAXIMUM_PATH : nat := 260.

Definition DLL_PROCESS_DETACH : Z := 0.
Definition DLL_PROCESS_ATTACH : Z := 1.
Definition DLL_THREAD_ATTACH : Z := 2.
Definition DLL_THREAD_DETACH : Z := 3.

(** ** C strings *)

Definition tolower (c : ascii) : ascii :=
  let n := nat_of_ascii c in
  if andb (Nat.leb 65 n) (Nat.leb n 90) then ascii_of_nat (n + 32) else c.

Fixpoint str_lower (s : string) : string :=
  match s with
  | EmptyString => EmptyString
  | String c s' => String (tolower c) (str_lower s')
  end.

(** [strcasecmp(a, b) == 0] *)
Definition strcasecmp_eq (a b : string) : bool :=
  String.eqb (str_lower a) (str_lower b).

(** [strchr(s, c)]: the index of the first [c] in [s]. *)
Fixpoint strchr (s : string) (c : ascii) : option nat :=
  match s with
  | EmptyString => None
  | String d s' =>
      if Ascii.eqb c d then Some 0%nat
      else option_map S (strchr s' c)
  end.

(** ** PE images as they lie in files *)

Inductive export :=
| ExpFunc (rva : Z)          (* an exported routine at [base + rva] *)
| ExpForward (fwd : string). (* a forwarder string "MODULE.SYMBOL" *)

(** An [IMAGE_IMPORT_DESCRIPTOR]. *)
Record import_desc := {
  id_oft : Z;        (* OriginalFirstThunk: RVA of the lookup table *)
  id_name : string;  (* the string at the Name RVA *)
  id_ft : Z;         (* FirstThunk: RVA of the IAT *)
  id_stamp : Z       (* TimeDateStamp *)
}.

(** The import data directory as [privload_get_import_descriptor] finds it. *)
Inductive import_dir :=
| NoImportDir                    (* dir->Size <= 0 *)
| UnreadableImportDir            (* fails is_readable_without_exception *)
| ImportDir (l : list import_desc).

Record image := {
  im_name : string;                  (* get_dll_short_name: export dir name *)
  im_pref : Z;                       (* get_module_preferred_base *)
  im_size : Z;                       (* size of the image view *)
  im_reloc : bool;                   (* module_file_relocatable *)
  im_rebase_ok : bool;               (* whether module_rebase succeeds *)
  im_imports : import_dir;
  im_exports : list (string * export);
  im_entry : Z;                      (* AddressOfEntryPoint (an RVA) *)
  im_dllmain : Z -> bool;            (* the entry routine's result per reason *)
  im_words : list (Z * Z);           (* initial pointer-sized words by RVA *)
  im_hintnames : list (Z * string);  (* IMAGE_IMPORT_BY_NAME.Name by RVA *)
  im_prot : Z -> Z                   (* initial protection of a page, by RVA *)
}.

Fixpoint assoc {A} (k : Z) (l : list (Z * A)) : option A :=
  match l with
  | [] => None
  | (k', v) :: l' => if Z.eqb k k' then Some v else assoc k l'
  end.

Fixpoint assoc_str {A} (k : string) (l : list (string * A)) : option A :=
  match l with
  | [] => None
  | (k', v) :: l' => if String.eqb k k' then Some v else assoc_str k l'
  end.

(** ** Loader state *)

Record privmod := {
  pm_base : Z;
  pm_size : Z;
  pm_name : string;
  pm_ref : nat;
  pm_ext : bool   (* externally_loaded *)
}.

Inductive event :=
| EvMap (base size : Z)
| EvUnmap (base size : Z)
| EvRebase (base delta : Z)
| EvProtect (page prot : Z)
| EvEntry (base reason : Z).

Record state := {
  st_fs : string -> option image;    (* files, by path *)
  st_modlist : list privmod;         (* modlist, front first *)
  st_maps : list (Z * image);        (* live image views, by base *)
  st_next_map : Z;                   (* where the kernel places the next view *)
  st_mem : Z -> Z;                   (* pointer-sized words, by address *)
  st_prot : Z -> Z;                  (* protection, by page start *)
  st_noprot : list Z;                (* pages whose protection cannot change *)
  st_forwmodpath : nat -> ascii;     (* static char forwmodpath[MAXIMUM_PATH] *)
  st_areas : list (Z * Z);           (* modlist_areas *)
  st_search : list string;           (* search_paths[0..privmod_static_idx) *)
  st_systemroot : string;
  st_log : list event                (* most recent first *)
}.

Definition set_modlist (l : list privmod) (s : state) : state :=
  {| st_fs := st_fs s; st_modlist := l; st_maps := st_maps s;
     st_next_map := st_next_map s; st_mem := st_mem s; st_prot := st_prot s;
     st_noprot := st_noprot s; st_forwmodpath := st_forwmodpath s;
     st_areas := st_areas s; st_search := st_search s;
     st_systemroot := st_systemroot s; st_log := st_log s |}.

Definition set_maps (m : list (Z * image)) (nx : Z) (s : state) : state :=
  {| st_fs := st_fs s; st_modlist := st_modlist s; st_maps := m;
     st_next_map := nx; st_mem := st_mem s; st_prot := st_prot s;
     st_noprot := st_noprot s; st_forwmodpath := st_forwmodpath s;
     st_areas := st_areas s; st_search := st_search s;
     st_systemroot := st_systemroot s; st_log := st_log s |}.

Definition set_mem (m : Z -> Z) (s : state) : state :=
  {| st_fs := st_fs s; st_modlist := st_modlist s; st_maps := st_maps s;
     st_next_map := st_next_map s; st_mem := m; st_prot := st_prot s;
     st_noprot := st_noprot s; st_forwmodpath := st_forwmodpath s;
     st_areas := st_areas s; st_search := st_search s;
     st_systemroot := st_systemroot s; st_log := st_log s |}.

Definition set_prot (p : Z -> Z) (s : state) : state :=
  {| st_fs := st_fs s; st_modlist := st_modlist s; st_maps := st_maps s;
     st_next_map := st_next_map s; st_mem := st_mem s; st_prot := p;
     st_noprot := st_noprot s; st_forwmodpath := st_forwmodpath s;
     st_areas := st_areas s; st_search := st_search s;
     st_systemroot := st_systemroot s; st_log := st_log s |}.

Definition set_forwmodpath (b : nat -> ascii) (s : state) : state :=
  {| st_fs := st_fs s; st_modlist := st_modlist s; st_maps := st_maps s;
     st_next_map := st_next_map s; st_mem := st_mem s; st_prot := st_prot s;
     st_noprot := st_noprot s; st_forwmodpath := b;
     st_areas := st_areas s; st_search := st_search s;
     st_systemroot := st_systemroot s; st_log := st_log s |}.

Definition set_areas (a : list (Z * Z)) (s : state) : state :=
  {| st_fs := st_fs s; st_modlist := st_modlist s; st_maps := st_maps s;
     st_next_map := st_next_map s; st_mem := st_mem s; st_prot := st_prot s;
     st_noprot := st_noprot s; st_forwmodpath := st_forwmodpath s;
     st_areas := a; st_search := st_search s;
     st_systemroot := st_systemroot s; st_log := st_log s |}.

Definition add_log (e : event) (s : state) : state :=
  {| st_fs := st_fs s; st_modlist := st_modlist s; st_maps := st_maps s;
     st_next_map := st_next_map s; st_mem := st_mem s; st_prot := st_prot s;
     st_noprot := st_noprot s; st_forwmodpath := st_forwmodpath s;
     st_areas := st_areas s; st_search := st_search s;
     st_systemroot := st_systemroot s; st_log := e :: st_log s |}.

(** ** A state monad for the loader's routines (all run under privload_lock) *)

Definition M (A : Type) : Type := state -> A * state.
Definition ret {A} (a : A) : M A := fun s => (a, s).
Definition bind {A B} (m : M A) (k : A -> M B) : M B :=
  fun s => let (a, s') := m s in k a s'.
Definition get : M state := fun s => (s, s).
Definition modify (f : state -> state) : M unit := fun s => (tt, f s).

Notation "x <- m ;; k" := (bind m (fun x => k))
  (at level 61, m at next level, right associativity).
Notation "m ;;; k" := (bind m (fun _ => k))
  (at level 61, right associativity).

(** ** The module registry (modlist) *)

Fixpoint find_mod (b : Z) (l : list privmod) : option privmod :=
  match l with
  | [] => None
  | m :: l' => if Z.eqb (pm_base m) b then Some m else find_mod b l'
  end.

Fixpoint find_mod_by_name (name : string) (l : list privmod) : option privmod :=
  match l with
  | [] => None
  | m :: l' => if strcasecmp_eq name (pm_name m) then Some m
               else find_mod_by_name name l'
  end.

(** [after->next = mod] etc.: link a record in right after [after]. *)
Fixpoint insert_after (after : Z) (m : privmod) (l : list privmod) : list privmod :=
  match l with
  | [] => [m] (* unreachable: [after] is always in the list *)
  | x :: l' => if Z.eqb (pm_base x) after then x :: m :: l'
               else x :: insert_after after m l'
  end.

(** Unlink the record: [prev->next = next; next->prev = prev]. *)
Fixpoint remove_mod (b : Z) (l : list privmod) : list privmod :=
  match l with
  | [] => []
  | x :: l' => if Z.eqb (pm_base x) b then l' else x :: remove_mod b l'
  end.

Definition with_ref (r : nat) (m : privmod) : privmod :=
  {| pm_base := pm_base m; pm_size := pm_size m; pm_name := pm_name m;
     pm_ref := r; pm_ext := pm_ext m |}.

Fixpoint set_ref (b : Z) (r : nat) (l : list privmod) : list privmod :=
  match l with
  | [] => []
  | x :: l' => if Z.eqb (pm_base x) b then with_ref r x :: l'
               else x :: set_ref b r l'
  end.

Definition get_mod (b : Z) : M (option privmod) :=
  fun s => (find_mod b (st_modlist s), s).

Definition privload_lookup (name : string) : M (option Z) :=
  fun s => (option_map pm_base (find_mod_by_name name (st_modlist s)), s).

Definition privload_lookup_by_base (modbase : Z) : M (option Z) :=
  fun s => (option_map pm_base (find_mod modbase (st_modlist s)), s).

Definition privload_insert (after : option Z) (base size : Z) (name : string)
  : M Z :=
  let m := {| pm_base := base; pm_size := size; pm_name := name;
              pm_ref := 1%nat; pm_ext := false |} in
  modify (fun s =>
    set_modlist
      (match after with
       | None => m :: st_modlist s
       | Some a => insert_after a m (st_modlist s)
       end) s) ;;;
  ret base.

Definition incref (b : Z) : M unit :=
  fun s =>
    match find_mod b (st_modlist s) with
    | Some m => (tt, set_modlist (set_ref b (S (pm_ref m)) (st_modlist s)) s)
    | None => (tt, s)
    end.

(** ** Memory, page protection and image views *)

Definition read_word (a : Z) : M Z := fun s => (st_mem s a, s).

Definition write_word (a v : Z) : M unit :=
  modify (fun s => set_mem (fun x => if Z.eqb x a then v else st_mem s x) s).

(** [protect_virtual_memory(page, PAGE_SIZE, newp, &old)]: [Some old] on
    success. *)
Definition protect_virtual_memory (page newp : Z) : M (option Z) :=
  fun s =>
    if existsb (Z.eqb page) (st_noprot s) then (None, s)
    else (Some (st_prot s page),
          add_log (EvProtect page newp)
            (set_prot (fun p => if Z.eqb p page then newp else st_prot s p) s)).

Definition image_at (b : Z) : M (option image) :=
  fun s => (assoc b (st_maps s), s).

Fixpoint remove_map (b : Z) (l : list (Z * image)) : list (Z * image) :=
  match l with
  | [] => []
  | (b', i) :: l' => if Z.eqb b b' then l' else (b', i) :: remove_map b l'
  end.

Definition round_up_page (n : Z) : Z := ((n + PAGE_SIZE - 1) / PAGE_SIZE) * PAGE_SIZE.

(** [map_file(fd, &size, 0, NULL, rwx, cow, image)]: the kernel chooses the
    base; the image's words and per-page protections appear there. *)
Definition map_file (img : image) : M Z :=
  fun s =>
    let b := st_next_map s in
    let sz := im_size img in
    let inside a := andb (Z.leb b a) (Z.ltb a (b + sz)) in
    (b,
     add_log (EvMap b sz)
       (set_prot (fun p => if inside p then im_prot img (p - b) else st_prot s p)
          (set_mem (fun a => if inside a
                             then match assoc (a - b) (im_words img) with
                                  | Some v => v | None => 0 end
                             else st_mem s a)
             (set_maps ((b, img) :: st_maps s) (b + round_up_page sz) s)))).

Definition unmap_file (b size : Z) : M unit :=
  modify (fun s => add_log (EvUnmap b size)
                     (set_maps (remove_map b (st_maps s)) (st_next_map s) s)).

Definition vmvector_add (lo hi : Z) : M unit :=
  modify (fun s => set_areas ((lo, hi) :: st_areas s) s).

Definition vmvector_remove (lo hi : Z) : M unit :=
  modify (fun s => set_areas
    (filter (fun r => negb (andb (Z.eqb (fst r) lo) (Z.eqb (snd r) hi))) (st_areas s)) s).

(** ** Entry dispatch *)

(** [get_module_entry]: the base plus AddressOfEntryPoint. *)
Definition get_module_entry (b : Z) : M Z :=
  fun s => (match assoc b (st_maps s) with
            | Some img => b + im_entry img
            | None => b
            end, s).

Definition privload_call_entry (b reason : Z) : M bool :=
  entry <- get_module_entry b ;;
  if andb (negb (Z.eqb entry 0)) (negb (Z.eqb entry b)) then
    img <- image_at b ;;
    modify (add_log (EvEntry b reason)) ;;;
    ret (match img with Some i => im_dllmain i reason | None => true end)
  else ret true.

(** ** Import descriptors *)

(** [privload_get_import_descriptor]: [None] is a failure; [Some None]
    means no import directory. *)
Definition privload_get_import_descriptor (b : Z)
  : M (option (option (list import_desc))) :=
  img <- image_at b ;;
  ret (match img with
       | None => None
       | Some i =>
           match im_imports i with
           | NoImportDir => Some None
           | UnreadableImportDir => None
           | ImportDir l => Some (Some l)
           end
       end).

(** The descriptors the [while (imports->OriginalFirstThunk != 0)] loops
    visit. *)
Fixpoint live_descs (l : list import_desc) : list import_desc :=
  match l with
  | [] => []
  | d :: l' => if Z.eqb (id_oft d) 0 then [] else d :: live_descs l'
  end.

(** ** Unloading *)

Section UnloadImports.
Variable unload : Z -> M bool.   (* privload_unload *)

Fixpoint unload_descs (l : list import_desc) : M unit :=
  match l with
  | [] => ret tt
  | d :: l' =>
      impmod <- privload_lookup (id_name d) ;;
      (match impmod with
       | Some b => _ <- unload b ;; ret tt
       | None => ret tt
       end) ;;;
      unload_descs l'
  end.

Definition privload_unload_imports_with (b : Z) : M bool :=
  r <- privload_get_import_descriptor b ;;
  match r with
  | None => ret false
  | Some None => ret true
  | Some (Some l) => unload_descs (live_descs l) ;;; ret true
  end.
End UnloadImports.

Fixpoint privload_unload (fuel : nat) (b : Z) : M bool :=
  match fuel with
  | O => ret false
  | S f =>
      om <- get_mod b ;;
      match om with
      | None => ret false
      | Some m =>
          let r := pred (pm_ref m) in
          modify (fun s => set_modlist (set_ref b r (st_modlist s)) s) ;;;
          if Nat.eqb r 0 then
            modify (fun s => set_modlist (remove_mod b (st_modlist s)) s) ;;;
            (if pm_ext m then ret tt
             else
               _ <- privload_call_entry b DLL_PROCESS_DETACH ;;
               _ <- privload_unload_imports_with (privload_unload f) b ;;
               vmvector_remove b (b + pm_size m) ;;;
               unmap_file b (pm_size m)) ;;;
            ret true
          else ret false
      end
  end.

Definition unload_private_library (fuel : nat) (modbase : Z) : M bool :=
  m <- privload_lookup_by_base modbase ;;
  match m with
  | Some b => privload_unload fuel b
  | None => ret false
  end.

(** ** Mapping and relocation *)

Definition privload_map_and_relocate (filename : string) : M (option (Z * Z)) :=
  s <- get ;;
  match st_fs s filename with
  | None => ret None                         (* os_open failed *)
  | Some img =>
      map <- map_file img ;;
      let size := im_size img in
      let pref := im_pref img in
      if Z.eqb pref map then ret (Some (map, size))
      else if negb (im_reloc img) then
        unmap_file map size ;;; ret None      (* module not relocatable *)
      else
        modify (add_log (EvRebase map (map - pref))) ;;;
        if negb (im_rebase_ok img) then unmap_file map size ;;; ret None
        else ret (Some (map, size))
  end.

(** ** Exports and the redirection tables *)

(** [get_proc_address_ex(base, name, &forwarder)]. *)
Definition get_proc_address_ex (b : Z) (name : string) : M (option Z * option string) :=
  img <- image_at b ;;
  ret (match img with
       | None => (None, None)
       | Some i =>
           match assoc_str name (im_exports i) with
           | Some (ExpFunc r) => (Some (b + r), None)
           | Some (ExpForward f) => (None, Some f)
           | None => (None, None)
           end
       end).

(** Addresses of the private replacement routines inside the core's image. *)
Definition dr_routine (k : Z) : Z := 352321536 + 16 * k.
Definition redirect_ignore_arg4_addr := dr_routine 0.
Definition redirect_ignore_arg8_addr := dr_routine 1.
Definition redirect_RtlAllocateHeap_addr := dr_routine 2.
Definition redirect_RtlReAllocateHeap_addr := dr_routine 3.
Definition redirect_RtlFreeHeap_addr := dr_routine 4.
Definition redirect_RtlSizeHeap_addr := dr_routine 5.
Definition redirect_RtlFreeUnicodeString_addr := dr_routine 6.
Definition redirect_RtlFreeAnsiString_addr := dr_routine 7.
Definition redirect_RtlFreeOemString_addr := dr_routine 8.
Definition redirect_FlsAlloc_addr := dr_routine 9.
Definition redirect_GetModuleHandleA_addr := dr_routine 10.
Definition redirect_GetProcAddress_addr := dr_routine 11.

Definition redirect_ntdll : list (string * Z) :=
  [("LdrSetDllManifestProber", redirect_ignore_arg4_addr);
   ("RtlSetThreadPoolStartFunc", redirect_ignore_arg8_addr);
   ("RtlSetUnhandledExceptionFilter", redirect_ignore_arg4_addr);
   ("RtlAllocateHeap", redirect_RtlAllocateHeap_addr);
   ("RtlReAllocateHeap", redirect_RtlReAllocateHeap_addr);
   ("RtlFreeHeap", redirect_RtlFreeHeap_addr);
   ("RtlSizeHeap", redirect_RtlSizeHeap_addr);
   ("RtlFreeUnicodeString", redirect_RtlFreeUnicodeString_addr);
   ("RtlFreeAnsiString", redirect_RtlFreeAnsiString_addr);
   ("RtlFreeOemString", redirect_RtlFreeOemString_addr)]%string.

Definition redirect_kernel32 : list (string * Z) :=
  [("FlsAlloc", redirect_FlsAlloc_addr);
   ("GetModuleHandleA", redirect_GetModuleHandleA_addr);
   ("GetProcAddress", redirect_GetProcAddress_addr)]%string.

Fixpoint redirect_find (name : string) (t : list (string * Z)) : option Z :=
  match t with
  | [] => None
  | (n, f) :: t' => if strcasecmp_eq name n then Some f else redirect_find name t'
  end.

Definition privload_redirect_imports (impmod : Z) (name : string) : M (option Z) :=
  m <- get_mod impmod ;;
  ret (match m with
       | None => None
       | Some m =>
           if strcasecmp_eq (pm_name m) "ntdll.dll" then redirect_find name redirect_ntdll
           else if strcasecmp_eq (pm_name m) "kernel32.dll"
           then redirect_find name redirect_kernel32
           else None
       end).

(** ** The forwarder module name in the static buffer [forwmodpath]

    On Windows the core's [snprintf] is the C library's [_snprintf]: it writes
    at most [n] characters and adds a terminating NUL only when the output is
    shorter than [n]. *)
Definition win_snprintf (buf : nat -> ascii) (off n : nat) (s : string) : nat -> ascii :=
  fun i =>
    if andb (Nat.leb off i) (Nat.ltb i (off + n)) then
      let k := (i - off)%nat in
      if Nat.ltb k (String.length s) then
        match String.get k s with Some c => c | None => Ascii.zero end
      else if Nat.eqb k (String.length s) then Ascii.zero
      else buf i
    else buf i.

(** A C string read from a buffer. *)
Fixpoint cstr_from (buf : nat -> ascii) (i fuel : nat) : string :=
  match fuel with
  | O => EmptyString
  | S f => let c := buf i in
           if Ascii.eqb c Ascii.zero then EmptyString
           else String c (cstr_from buf (S i) f)
  end.

Definition cstr (buf : nat -> ascii) : string := cstr_from buf 0 MAXIMUM_PATH.

(** The body of the forwarder loop up to the lookup of [forwmodpath]:
    [forwfunc = strchr(forwarder, '.') + 1], the length check, the two
    [snprintf]s and the terminating store.  [None] is the failure return
    (a forwarder string always contains a '.'). *)
Definition build_forwmodpath (buf : nat -> ascii) (forwarder : string)
  : option ((nat -> ascii) * string) :=
  match strchr forwarder "."%char with
  | None => None
  | Some i =>
      let k := S i in                        (* forwfunc - forwarder *)
      if Nat.leb MAXIMUM_PATH (k + String.length "dll") then None
      else
        let b1 := win_snprintf buf 0 k forwarder in
        let b2 := win_snprintf b1 k (String.length "dll") "dll" in
        let b3 := fun j => if Nat.eqb j (k + String.length ".dll") then Ascii.zero
                           else b2 j in
        Some (b3, substring k (String.length forwarder - k) forwarder)
  end.

(** ** Import binding *)

Section Binder.
Variable locate : string -> Z -> M (option Z).  (* privload_locate_and_load *)
Variable bound : nat.                           (* loop fuel *)

(** [while (func == NULL) { ... }] *)
Fixpoint forward_loop (n : nat) (md : Z) (func : option Z)
         (forwarder : option string) (forwmod : Z) (forwfunc : string)
  : M (option (Z * Z * string)) :=
  match func with
  | Some fn => ret (Some (fn, forwmod, forwfunc))
  | None =>
      match n with
      | O => ret None
      | S n' =>
          match forwarder with
          | None => ret None                       (* import not found *)
          | Some fw =>
              s <- get ;;
              match build_forwmodpath (st_forwmodpath s) fw with
              | None => ret None
              | Some (buf, ffunc) =>
                  modify (set_forwmodpath buf) ;;;
                  let path := cstr buf in
                  fm <- privload_lookup path ;;
                  fm' <- match fm with
                         | Some x => ret (Some x)
                         | None => locate path md
                         end ;;
                  match fm' with
                  | None => ret None
                  | Some fmb =>
                      r <- get_proc_address_ex fmb ffunc ;;
                      forward_loop n' md (fst r) (snd r) fmb ffunc
                  end
              end
          end
      end
  end.

Definition privload_process_one_import (md impmod lookup address : Z) : M bool :=
  v <- read_word lookup ;;
  if negb (Z.eqb (Z.land IMAGE_ORDINAL_FLAG v) 0) then
    ret true     (* FIXME i#233: ASSERT_NOT_REACHED(), then falls through *)
  else
    img <- image_at md ;;
    let nm := match img with
              | Some i => match assoc (Z.land v (Z.lnot IMAGE_ORDINAL_FLAG))
                                      (im_hintnames i) with
                          | Some n => n | None => EmptyString end
              | None => EmptyString
              end in
    r <- get_proc_address_ex impmod nm ;;
    res <- forward_loop bound md (fst r) (snd r) impmod nm ;;
    match res with
    | None => ret false
    | Some (fn, fmod, ffunc) =>
        dst <- privload_redirect_imports fmod ffunc ;;
        write_word address (match dst with Some d => d | None => fn end) ;;;
        ret true
    end.

(** The walk of the lookup table and the IAT in lockstep; [Some (iat,
    orig_prot)] when the zero slot is reached. *)
Fixpoint thunk_loop (n : nat) (md impmod lookup address iat orig : Z)
  : M (option (Z * Z)) :=
  match n with
  | O => ret None
  | S n' =>
      v <- read_word lookup ;;
      if Z.eqb v 0 then ret (Some (iat, orig))
      else
        ok <- privload_process_one_import md impmod lookup address ;;
        if negb ok then ret None
        else
          let lookup' := lookup + PTR_SZ in
          let address' := address + PTR_SZ in
          if negb (Z.eqb (PAGE_START address') (PAGE_START iat)) then
            r1 <- protect_virtual_memory (PAGE_START iat) orig ;;
            match r1 with
            | None => ret None
            | Some _ =>
                r2 <- protect_virtual_memory (PAGE_START address') PAGE_READWRITE ;;
                match r2 with
                | None => ret None
                | Some o2 => thunk_loop n' md impmod lookup' address' address' o2
                end
            end
          else thunk_loop n' md impmod lookup' address' iat orig
  end.

Fixpoint desc_loop (md : Z) (l : list import_desc) : M bool :=
  match l with
  | [] => ret true
  | d :: l' =>
      im <- privload_lookup (id_name d) ;;
      impb <- match im with
              | None => locate (id_name d) md
              | Some x => incref x ;;; ret (Some x)
              end ;;
      match impb with
      | None => ret false                     (* unable to load import lib *)
      | Some ib =>
          let lookup := md + id_oft d in
          let address := md + id_ft d in
          r <- protect_virtual_memory (PAGE_START address) PAGE_READWRITE ;;
          match r with
          | None => ret false
          | Some orig =>
              t <- thunk_loop bound md ib lookup address address orig ;;
              match t with
              | None => ret false
              | Some (iat, orig') =>
                  r' <- protect_virtual_memory (PAGE_START iat) orig' ;;
                  match r' with
                  | None => ret false
                  | Some _ => desc_loop md l'
                  end
              end
          end
      end
  end.

Definition privload_process_imports (md : Z) : M bool :=
  r <- privload_get_import_descriptor md ;;
  match r with
  | None => ret false
  | Some None => ret true
  | Some (Some l) => desc_loop md (live_descs l)
  end.
End Binder.

(** ** Locating a dependency *)

(** [snprintf(modpath, MAXIMUM_PATH, ...); NULL_TERMINATE_BUFFER(modpath)]. *)
Definition modpath_of (s : string) : string := substring 0 (MAXIMUM_PATH - 1) s.

Section Locate.
Variable load : string -> option Z -> M (option Z).  (* privload_load *)

Definition try_path (path : string) (dependent : Z) : M (option Z) :=
  s <- get ;;
  match st_fs s path with            (* os_file_exists *)
  | Some _ => load path (Some dependent)
  | None => ret None
  end.

(** 1) client lib dirs *)
Fixpoint try_dirs (dirs : list string) (impname : string) (dependent : Z)
  : M (option Z) :=
  match dirs with
  | [] => ret None
  | d :: ds =>
      r <- try_path (modpath_of (d ++ "/" ++ impname)) dependent ;;
      match r with
      | Some m => ret (Some m)
      | None => try_dirs ds impname dependent
      end
  end.

Definition privload_locate_and_load (impname : string) (dependent : Z)
  : M (option Z) :=
  r <- (s <- get ;; try_dirs (st_search s) impname dependent) ;;
  match r with
  | Some m => ret (Some m)
  | None =>
      s <- get ;;
      if String.eqb (st_systemroot s) EmptyString then ret None
      else
        (* 3) system dir *)
        r3 <- try_path (modpath_of (st_systemroot s ++ "/system32/" ++ impname))
                       dependent ;;
        match r3 with
        | Some m => ret (Some m)
        | None =>
            (* 4) windows dir *)
            try_path (modpath_of (st_systemroot s ++ "/" ++ impname)) dependent
        end
  end.
End Locate.

(** ** Loading *)

Definition privload_load_finalize_with (locate : string -> Z -> M (option Z))
  (bound : nat) (unload : Z -> M bool) (b : Z) : M bool :=
  m <- get_mod b ;;
  (match m with
   | Some m => if pm_ext m then ret tt else vmvector_add b (b + pm_size m)
   | None => ret tt
   end) ;;;
  ok <- privload_process_imports locate bound b ;;
  if negb ok then unload b ;;; ret false
  else
    ok2 <- privload_call_entry b DLL_PROCESS_ATTACH ;;
    if negb ok2 then unload b ;;; ret false
    else ret true.

Fixpoint privload_load (fuel : nat) (filename : string) (dependent : option Z)
  : M (option Z) :=
  match fuel with
  | O => ret None
  | S f =>
      r <- privload_map_and_relocate filename ;;
      match r with
      | None => ret None
      | Some (map, size) =>
          img <- image_at map ;;
          let name := match img with Some i => im_name i | None => EmptyString end in
          (* add after its dependent to preserve forward-can-unload order *)
          b <- privload_insert dependent map size name ;;
          ok <- privload_load_finalize_with
                  (privload_locate_and_load (privload_load f)) f
                  (privload_unload fuel) b ;;
          if ok then ret (Some b) else ret None
      end
  end.

Definition load_private_library (fuel : nat) (filename : string) : M (option Z) :=
  m <- privload_lookup filename ;;
  match m with
  | Some b => ret (Some b)
  | None => privload_load fuel filename None
  end.

Definition in_private_library (pc : Z) : M bool :=
  fun s => (existsb (fun r => andb (Z.leb (fst r) pc) (Z.ltb pc (snd r))) (st_areas s), s).

(** ** Registry order, as the claims about it state it *)

Fixpoint index_of (b : Z) (l : list privmod) : option nat :=
  match l with
  | [] => None
  | m :: l' => if Z.eqb (pm_base m) b then Some 0%nat else option_map S (index_of b l')
  end.

(** The names a module imports from (its direct dependencies). *)
Definition direct_deps (s : state) (m : privmod) : list string :=
  match assoc (pm_base m) (st_maps s) with
  | Some i => match im_imports i with
              | ImportDir l => map id_name (live_descs l)
              | _ => []
              end
  | None => []
  end.

(** Every module appears after each of its direct dependencies that is in
    the registry: [index(D) < index(M)]. *)
Definition deps_before (s : state) : bool :=
  let l := st_modlist s in
  forallb (fun m =>
    forallb (fun n =>
      match find_mod_by_name n l with
      | Some d => match index_of (pm_base d) l, index_of (pm_base m) l with
                  | Some i, Some j => Nat.ltb i j
                  | _, _ => true
                  end
      | None => true
      end) (direct_deps s m)) l.

(** ** A concrete process: ntdll registered as externally loaded, and a few
    library files *)

Definition ro_pages : Z -> Z := fun _ => PAGE_READONLY.
Definition NTDLL_BASE : Z := 2000000000.
Definition FIRST_MAP : Z := 268435456.

Definition mk_image (name : string) (imps : import_dir) (exps : list (string * export))
  (entry : Z) (words : list (Z * Z)) (hints : list (Z * string)) : image :=
  {| im_name := name; im_pref := 6442450944; im_size := 20480;
     im_reloc := true; im_rebase_ok := true; im_imports := imps;
     im_exports := exps; im_entry := entry; im_dllmain := fun _ => true;
     im_words := words; im_hintnames := hints; im_prot := ro_pages |}.

Definition ntdll_img : image :=
  {| im_name := "ntdll.dll"; im_pref := NTDLL_BASE; im_size := 4096;
     im_reloc := true; im_rebase_ok := true; im_imports := NoImportDir;
     im_exports := [("RtlAllocateHeap"%string, ExpFunc 256); ("NtClose"%string, ExpFunc 512)];
     im_entry := 0; im_dllmain := fun _ => true; im_words := []; im_hintnames := [];
     im_prot := ro_pages |}.

(** One import descriptor for [dep] whose lookup table is at RVA 8192 and
    whose IAT is at RVA 12288, followed by the zero descriptor. *)
Definition one_desc (dep : string) : import_dir :=
  ImportDir [ {| id_oft := 8192; id_name := dep; id_ft := 12288; id_stamp := 0 |};
              {| id_oft := 0; id_name := EmptyString; id_ft := 0; id_stamp := 0 |} ].

(** A lookup table and an identical IAT holding [slots], zero-terminated. *)
Definition thunks (slots : list Z) : list (Z * Z) :=
  let idx := seq 0 (length slots) in
  map (fun '(i, v) => (8192 + 8 * Z.of_nat i, v)) (combine idx slots) ++
  map (fun '(i, v) => (12288 + 8 * Z.of_nat i, v)) (combine idx slots).

(** [A.dll] imports [Foo] from [B.dll]; [B.dll] has no imports and no entry. *)
Definition A_img : image :=
  mk_image "A.dll" (one_desc "B.dll") [] 4096 (thunks [16384]) [(16384, "Foo"%string)].
Definition B_img : image :=
  mk_image "B.dll" NoImportDir [("Foo"%string, ExpFunc 4352); ("Bar"%string, ExpFunc 4608)]
    0 [] [].
Definition L_img : image := mk_image "L.dll" NoImportDir [] 4096 [] [].
(** [A2.dll] imports slot 5 of [B.dll] by ordinal. *)
Definition ORD5 : Z := IMAGE_ORDINAL_FLAG + 5.
Definition A2_img : image := mk_image "A2.dll" (one_desc "B.dll") [] 4096 (thunks [ORD5]) [].
(** [A3.dll] imports [Foo] and the missing [Baz] from [B.dll]. *)
Definition A3_img : image :=
  mk_image "A3.dll" (one_desc "B.dll") [] 4096 (thunks [16384; 16400])
    [(16384, "Foo"%string); (16400, "Baz"%string)].
(** [A7.dll] imports [Foo] and [Bar] from [K.dll], which forwards them to
    [LONGMOD.Foo] and [KB.Bar]. *)
Definition A7_img : image :=
  mk_image "A7.dll" (one_desc "K.dll") [] 4096 (thunks [16384; 16400])
    [(16384, "Foo"%string); (16400, "Bar"%string)].
Definition K_img : image :=
  mk_image "K.dll" NoImportDir
    [("Foo"%string, ExpForward "LONGMOD.Foo"); ("Bar"%string, ExpForward "KB.Bar")] 0 [] [].
Definition LONGMOD_img : image :=
  mk_image "LONGMOD.dll" NoImportDir [("Foo"%string, ExpFunc 4352)] 0 [] [].
Definition KB_img : image :=
  mk_image "KB.dll" NoImportDir [("Bar"%string, ExpFunc 4352)] 0 [] [].

Definition files : list (string * image) :=
  [("A.dll", A_img); ("A2.dll", A2_img); ("A3.dll", A3_img); ("A7.dll", A7_img);
   ("L.dll", L_img);
   ("C:/Windows/system32/B.dll", B_img); ("C:/Windows/system32/K.dll", K_img);
   ("C:/Windows/system32/LONGMOD.dll", LONGMOD_img);
   ("C:/Windows/system32/KB.dll", KB_img)]%string.

Definition s_init : state :=
  {| st_fs := fun p => assoc_str p files;
     st_modlist := [ {| pm_base := NTDLL_BASE; pm_size := 4096; pm_name := "ntdll.dll";
                        pm_ref := 1; pm_ext := true |} ];
     st_maps := [(NTDLL_BASE, ntdll_img)]; st_next_map := FIRST_MAP;
     st_mem := fun _ => 0; st_prot := ro_pages; st_noprot := [];
     st_forwmodpath := fun _ => Ascii.zero; st_areas := []; st_search := [];
     st_systemroot := "C:/Windows"; st_log := [] |}.

Definition FUEL : nat := 10.

(** The state of [privload_load] right before [privload_process_imports]
    for a root load of [file]. *)
Definition before_imports (file : string) : state * Z :=
  let (r, s1) := privload_map_and_relocate file s_init in
  match r with
  | Some (map, size) =>
      let name := match assoc map (st_maps s1) with
                  | Some i => im_name i | None => EmptyString end in
      let (b, s2) := privload_insert None map size name s1 in
      (snd (vmvector_add b (b + size) s2), b)
  | None => (s1, 0)
  end.

Definition run_process_imports (file : string) : bool * state :=
  let (s, b) := before_imports file in
  privload_process_imports (privload_locate_and_load (privload_load FUEL)) FUEL b s.

(** The [snprintf] of the C standard, for comparison: at most [n - 1]
    characters and always a terminating NUL. *)
Definition c99_snprintf (buf : nat -> ascii) (off n : nat) (s : string) : nat -> ascii :=
  fun i =>
    let w := Nat.min (n - 1) (String.length s) in
    if andb (Nat.leb off i) (Nat.ltb i (off + n)) then
      let k := (i - off)%nat in
      if Nat.ltb k w then
        match String.get k s with Some c => c | None => Ascii.zero end
      else if Nat.eqb k w then Ascii.zero
      else buf i
    else buf i.

Definition build_forwmodpath_c99 (buf : nat -> ascii) (forwarder : string)
  : option ((nat -> ascii) * string) :=
  match strchr forwarder "."%char with
  | None => None
  | Some i =>
      let k := S i in
      if Nat.leb MAXIMUM_PATH (k + String.length "dll") then None
      else
        let b1 := c99_snprintf buf 0 k forwarder in
        let b2 := c99_snprintf b1 k (String.length "dll") "dll" in
        let b3 := fun j => if Nat.eqb j (k + String.length ".dll") then Ascii.zero
                           else b2 j in
        Some (b3, substring k (String.length forwarder - k) forwarder)
  end.

(** ** Rtl*Heap redirection *)

Module Heap.

Definition SIZE_T_MOD : Z := 2 ^ 64.
(** SIZE_T / pointer arithmetic wraps around at 2^64. *)
Definition wrap (x : Z) : Z := x mod SIZE_T_MOD.
Definition HEAP_ZERO_MEMORY : Z := 8.
Definition HEAP_ALIGNMENT : Z := 8.

(** The OS's own heap routines, reached on the non-redirected paths. *)
Record os_heap := {
  RtlAllocateHeap : Z -> Z -> Z -> Z;
  RtlReAllocateHeap : Z -> Z -> Z -> Z -> Z;
  RtlFreeHeap : Z -> Z -> Z -> bool;
  RtlSizeHeap : Z -> Z -> Z -> Z
}.

Inductive native_call :=
| NAlloc (heap flags size : Z)
| NReAlloc (heap flags ptr size : Z)
| NFree (heap flags ptr : Z)
| NSize (heap flags ptr : Z).

Record hstate := {
  h_process_heap : Z;          (* PEB.ProcessHeap *)
  h_mem : Z -> Z;              (* pointer-sized words, by address *)
  h_readable : list (Z * Z);   (* committed ranges [lo, hi) *)
  h_dr_areas : list (Z * Z);   (* host-owned ranges: is_dynamo_address *)
  h_next : Z;                  (* global heap: next free address *)
  h_limit : Z;                 (* global heap: end of its reservation *)
  h_freed : list (Z * Z);      (* global_heap_free(ptr, size) calls *)
  h_native : list native_call  (* calls passed to the OS, most recent first *)
}.

(** [None] is an access violation. *)
Definition HM (A : Type) : Type := hstate -> option (A * hstate).
Definition hret {A} (a : A) : HM A := fun s => Some (a, s).
Definition hbind {A B} (m : HM A) (k : A -> HM B) : HM B :=
  fun s => match m s with Some (a, s') => k a s' | None => None end.
Definition hget : HM hstate := fun s => Some (s, s).

#[local] Set Warnings "-notation-overridden".
Local Notation "x <- m ;; k" := (hbind m (fun x => k))
  (at level 61, m at next level, right associativity).
Local Notation "m ;;; k" := (hbind m (fun _ => k))
  (at level 61, right associativity).

Definition in_ranges (p : Z) (l : list (Z * Z)) : bool :=
  existsb (fun r => andb (Z.leb (fst r) p) (Z.ltb p (snd r))) l.

Definition is_dynamo_address (p : Z) : HM bool :=
  fun s => Some (in_ranges p (h_dr_areas s), s).

Definition hread (a : Z) : HM Z :=
  fun s => if in_ranges a (h_readable s) then Some (h_mem s a, s) else None.

Definition set_hmem (m : Z -> Z) (s : hstate) : hstate :=
  {| h_process_heap := h_process_heap s; h_mem := m; h_readable := h_readable s;
     h_dr_areas := h_dr_areas s; h_next := h_next s; h_limit := h_limit s;
     h_freed := h_freed s; h_native := h_native s |}.

Definition hwrite (a v : Z) : HM unit :=
  fun s => if in_ranges a (h_readable s)
           then Some (tt, set_hmem (fun x => if Z.eqb x a then v else h_mem s x) s)
           else None.

(** [memset(p, 0, n)] *)
Definition memset0 (p n : Z) : HM unit :=
  fun s => Some (tt, set_hmem (fun x => if andb (Z.leb p x) (Z.ltb x (p + n))
                                        then 0 else h_mem s x) s).

(** [memcpy(dst, src, n)] *)
Definition memcpy (dst src n : Z) : HM unit :=
  fun s =>
    if Z.ltb 0 n && negb (in_ranges src (h_readable s)) then None
    else Some (tt, set_hmem (fun x => if andb (Z.leb dst x) (Z.ltb x (dst + n))
                                      then h_mem s (src + (x - dst)) else h_mem s x) s).

Definition round_align (n : Z) : Z :=
  ((n + HEAP_ALIGNMENT - 1) / HEAP_ALIGNMENT) * HEAP_ALIGNMENT.

(** [global_heap_alloc(size)]: NULL when the reservation is exhausted. *)
Definition global_heap_alloc (size : Z) : HM Z :=
  fun s =>
    if Z.leb (h_next s + size) (h_limit s) then
      Some (h_next s,
            {| h_process_heap := h_process_heap s; h_mem := h_mem s;
               h_readable := h_readable s; h_dr_areas := h_dr_areas s;
               h_next := h_next s + round_align size; h_limit := h_limit s;
               h_freed := h_freed s; h_native := h_native s |})
    else Some (0, s).

Definition global_heap_free (p size : Z) : HM unit :=
  fun s => Some (tt,
    {| h_process_heap := h_process_heap s; h_mem := h_mem s;
       h_readable := h_readable s; h_dr_areas := h_dr_areas s;
       h_next := h_next s; h_limit := h_limit s;
       h_freed := (p, size) :: h_freed s; h_native := h_native s |}).

Definition native (c : native_call) : HM unit :=
  fun s => Some (tt,
    {| h_process_heap := h_process_heap s; h_mem := h_mem s;
       h_readable := h_readable s; h_dr_areas := h_dr_areas s;
       h_next := h_next s; h_limit := h_limit s;
       h_freed := h_freed s; h_native := c :: h_native s |}).

Section Redirect.
Variable os : os_heap.

Definition redirect_RtlAllocateHeap (heap flags size : Z) : HM Z :=
  s <- hget ;;
  if Z.eqb heap (h_process_heap s) then
    let size' := wrap (size + PTR_SZ) in
    mem <- global_heap_alloc size' ;;
    if Z.eqb mem 0 then hret 0
    else
      hwrite mem size' ;;;
      (if negb (Z.eqb (Z.land HEAP_ZERO_MEMORY flags) 0)
       then memset0 (mem + PTR_SZ) (size' - PTR_SZ) else hret tt) ;;;
      hret (mem + PTR_SZ)
  else
    native (NAlloc heap flags size) ;;;
    hret (RtlAllocateHeap os heap flags size).

Definition redirect_RtlFreeHeap (heap flags ptr : Z) : HM bool :=
  s <- hget ;;
  dyn <- is_dynamo_address ptr ;;
  if andb (Z.eqb heap (h_process_heap s)) dyn then
    if negb (Z.eqb ptr 0) then
      let p := wrap (ptr - PTR_SZ) in
      sz <- hread p ;;
      global_heap_free p sz ;;;
      hret true
    else hret false
  else
    native (NFree heap flags ptr) ;;;
    hret (RtlFreeHeap os heap flags ptr).

Definition redirect_RtlReAllocateHeap (heap flags ptr size : Z) : HM Z :=
  s <- hget ;;
  dyn <- is_dynamo_address ptr ;;
  if andb (Z.eqb heap (h_process_heap s)) (orb dyn (Z.eqb ptr 0)) then
    buf <- redirect_RtlAllocateHeap heap flags size ;;
    (if negb (Z.eqb buf 0) then
       old_size <- hread (wrap (ptr - PTR_SZ)) ;;
       memcpy buf ptr (Z.min old_size size)
     else hret tt) ;;;
    _ <- redirect_RtlFreeHeap heap flags ptr ;;
    hret buf
  else
    native (NReAlloc heap flags ptr size) ;;;
    hret (RtlReAllocateHeap os heap flags ptr size).

Definition redirect_RtlSizeHeap (heap flags ptr : Z) : HM Z :=
  s <- hget ;;
  dyn <- is_dynamo_address ptr ;;
  if andb (Z.eqb heap (h_process_heap s)) dyn then
    if negb (Z.eqb ptr 0) then hread (wrap (ptr - PTR_SZ))
    else hret 0
  else
    native (NSize heap flags ptr) ;;;
    hret (RtlSizeHeap os heap flags ptr).
End Redirect.

(** ** RtlFree*String redirection *)

(** [UNICODE_STRING], [ANSI_STRING] and [OEM_STRING] share this layout. *)
Record counted_string := {
  cs_Length : Z;
  cs_MaximumLength : Z;
  cs_Buffer : Z
}.

(** [memset(string, 0, sizeof( *string))] *)
Definition zero_string : counted_string :=
  {| cs_Length := 0; cs_MaximumLength := 0; cs_Buffer := 0 |}.

(** The OS's string routines, as their effect on the structure. *)
Record os_string := {
  RtlFreeUnicodeString : counted_string -> counted_string;
  RtlFreeAnsiString : counted_string -> counted_string;
  RtlFreeOemString : counted_string -> counted_string
}.

Section FreeString.
Variable os : os_heap.
Variable oss : os_string.

(** The body the three [redirect_RtlFree*String] routines share; the string
    is passed by pointer, so its new contents are returned. *)
Definition redirect_free_string (native_free : counted_string -> counted_string)
  (string : counted_string) : HM counted_string :=
  dyn <- is_dynamo_address (cs_Buffer string) ;;
  if dyn then
    s <- hget ;;
    _ <- redirect_RtlFreeHeap os (h_process_heap s) 0 (cs_Buffer string) ;;
    hret zero_string
  else hret (native_free string).

Definition redirect_RtlFreeUnicodeString : counted_string -> HM counted_string :=
  redirect_free_string (RtlFreeUnicodeString oss).
Definition redirect_RtlFreeAnsiString : counted_string -> HM counted_string :=
  redirect_free_string (RtlFreeAnsiString oss).
Definition redirect_RtlFreeOemString : counted_string -> HM counted_string :=
  redirect_free_string (RtlFreeOemString oss).
End FreeString.

(** A process whose PEB.ProcessHeap handle is 5242880 and whose host
    global heap reserves [2^32, 2^32 + 65536); nothing below 65536 and
    nothing in the top (kernel) half of the address space is mapped. *)
Definition HEAP_LO : Z := 2 ^ 32.
Definition hs0 : hstate :=
  {| h_process_heap := 5242880; h_mem := fun _ => 0;
     h_readable := [(65536, 2 ^ 47)]; h_dr_areas := [(HEAP_LO, HEAP_LO + 65536)];
     h_next := HEAP_LO; h_limit := HEAP_LO + 65536;
     h_freed := []; h_native := [] |}.

(** The OS routines as ntdll implements them for a NULL block: freeing NULL
    succeeds, and the size of NULL is the error value (SIZE_T)-1. *)
Definition os_win : os_heap :=
  {| RtlAllocateHeap := fun _ _ _ => 0;
     RtlReAllocateHeap := fun _ _ _ _ => 0;
     RtlFreeHeap := fun _ _ p => if Z.eqb p 0 then true else false;
     RtlSizeHeap := fun _ _ p => if Z.eqb p 0 then SIZE_T_MOD - 1 else 0 |}.

End Heap.

(** ** Loader entry points and redirected queries *)


(** [redirect_GetProcAddress]; [GetProcAddress] is the OS routine.  The
    export is looked up with a NULL [forwarder], so a forwarded export gives
    NULL. *)
Definition redirect_GetProcAddress (GetProcAddress : Z -> string -> Z)
  (modbase : Z) (name : string) : M Z :=
  m <- privload_lookup_by_base modbase ;;
  match m with
  | Some b =>
      r <- privload_redirect_imports b name ;;
      match r with
      | Some f => ret f
      | None =>
          p <- get_proc_address_ex modbase name ;;
          ret (match fst p with Some f => f | None => 0 end)
      end
  | None => ret (GetProcAddress modbase name)
  end.

(** The walk of [loader_thread_init] and [loader_thread_exit]:
    [for (mod = modlist; mod != NULL; mod = mod->next)].
    [privload_call_entry] leaves the registry as it is, so walking the
    registry as it was at the start is following the [next] links. *)
Fixpoint notify_modules (l : list privmod) (reason : Z) : M unit :=
  match l with
  | [] => ret tt
  | m :: l' =>
      (if pm_ext m then ret tt
       else _ <- privload_call_entry (pm_base m) reason ;; ret tt) ;;;
      notify_modules l' reason
  end.

Definition loader_thread_init : M unit :=
  s <- get ;; notify_modules (st_modlist s) DLL_THREAD_ATTACH.

Definition loader_thread_exit : M unit :=
  s <- get ;; notify_modules (st_modlist s) DLL_THREAD_DETACH.

(** [while (modlist != NULL) privload_unload(modlist);], with [n] rounds of
    fuel for the loop and [fuel] for each [privload_unload]. *)
Fixpoint unload_front (n fuel : nat) : M unit :=
  match n with
  | O => ret tt
  | S n' =>
      s <- get ;;
      match st_modlist s with
      | [] => ret tt
      | m :: _ => _ <- privload_unload fuel (pm_base m) ;; unload_front n' fuel
      end
  end.

(** [loader_exit] on the registry: unload from the front, then
    [vmvector_delete_vector(modlist_areas)].  Its release of the FLS list is
    [Fls.fls_exit]. *)
Definition loader_exit (n fuel : nat) : M unit :=
  unload_front n fuel ;;;
  modify (set_areas []).

Definition DYNAMORIO_LIBRARY_NAME : string := "dynamorio.dll".

Definition set_systemroot (r : string) (s : state) : state :=
  {| st_fs := st_fs s; st_modlist := st_modlist s; st_maps := st_maps s;
     st_next_map := st_next_map s; st_mem := st_mem s; st_prot := st_prot s;
     st_noprot := st_noprot s; st_forwmodpath := st_forwmodpath s;
     st_areas := st_areas s; st_search := st_search s;
     st_systemroot := r; st_log := st_log s |}.

(** [privload_init_search_paths]: [reg] is the SystemRoot value of the
    registry, [None] when the query fails (ASSERT_NOT_REACHED in debug
    builds; [systemroot] stays as it was).  The [snprintf] into
    [systemroot] and [NULL_TERMINATE_BUFFER] keep at most
    [MAXIMUM_PATH - 1] characters. *)
Definition privload_init_search_paths (reg : option string) : M unit :=
  match reg with
  | Some v => modify (set_systemroot (modpath_of v))
  | None => ret tt
  end.

Definition with_ext (e : bool) (m : privmod) : privmod :=
  {| pm_base := pm_base m; pm_size := pm_size m; pm_name := pm_name m;
     pm_ref := pm_ref m; pm_ext := e |}.

Fixpoint set_ext (b : Z) (l : list privmod) : list privmod :=
  match l with
  | [] => []
  | x :: l' => if Z.eqb (pm_base x) b then with_ext true x :: l'
               else x :: set_ext b l'
  end.

(** [mod->externally_loaded = true] *)
Definition mark_external (b : Z) : M unit :=
  modify (fun s => set_modlist (set_ext b (st_modlist s)) s).

(** The client libraries mapped before the heap existed
    ([privmod_static[0..privmod_static_idx)]): each is put on the list and
    finalized, as [privload_load] would have done. *)
Fixpoint finalize_static (fuel : nat) (l : list (Z * Z * string)) : M unit :=
  match l with
  | [] => ret tt
  | (b, size, name) :: l' =>
      m <- privload_insert None b size name ;;
      _ <- privload_load_finalize_with
             (privload_locate_and_load (privload_load fuel)) fuel
             (privload_unload (S fuel)) m ;;
      finalize_static fuel l'
  end.

(** [loader_init] on the registry; [get_allocation_size] of each module is
    passed in, [user32] is [None] when user32.dll is not in the process.  Its
    allocation of the FLS head node is [Fls.fls_init]. *)
Definition loader_init (reg : option string) (ntdll ntdll_size drdll drdll_size : Z)
  (user32 : option (Z * Z)) (statics : list (Z * Z * string)) (fuel : nat) : M unit :=
  privload_init_search_paths reg ;;;
  modify (set_areas []) ;;;
  b1 <- privload_insert None ntdll ntdll_size "ntdll.dll" ;;
  mark_external b1 ;;;
  b2 <- privload_insert None drdll drdll_size DYNAMORIO_LIBRARY_NAME ;;
  mark_external b2 ;;;
  (match user32 with
   | Some (u, usize) =>
       b3 <- privload_insert None u usize "user32.dll" ;;
       mark_external b3
   | None => ret tt
   end) ;;;
  finalize_static fuel statics.

(** ** Private FLS callbacks *)

Module Fls.

Record mcontext := {
  xsp : Z;
  xcx : Z
}.

Record fls_state := {
  fls_cb_list : list Z;           (* the [cb] of each node, the head node first;
                                     [] while [fls_cb_list] is NULL *)
  f_dr_areas : list (Z * Z);      (* the host's areas: is_dynamo_address *)
  f_mem : Z -> Z;                 (* pointer-sized words, by address *)
  f_readable : list (Z * Z);      (* where safe_read succeeds *)
  f_mc : mcontext;                (* the thread's machine context *)
  f_next_tag : Z;                 (* dcontext->next_tag *)
  f_calls : list (Z * Z)          (* callbacks run natively (cb, arg), most recent first *)
}.

Definition XSP_SZ : Z := PTR_SZ.

Definition set_cb_list (l : list Z) (s : fls_state) : fls_state :=
  {| fls_cb_list := l; f_dr_areas := f_dr_areas s; f_mem := f_mem s;
     f_readable := f_readable s; f_mc := f_mc s; f_next_tag := f_next_tag s;
     f_calls := f_calls s |}.

Definition set_dr_areas (a : list (Z * Z)) (s : fls_state) : fls_state :=
  {| fls_cb_list := fls_cb_list s; f_dr_areas := a; f_mem := f_mem s;
     f_readable := f_readable s; f_mc := f_mc s; f_next_tag := f_next_tag s;
     f_calls := f_calls s |}.

(** [loader_init]: the permanent head node, whose [cb] is NULL. *)
Definition fls_init (s : fls_state) : fls_state := set_cb_list [0] s.

(** [loader_exit]: every node freed. *)
Definition fls_exit (s : fls_state) : fls_state := set_cb_list [] s.

(** [redirect_FlsAlloc]; [FlsAlloc] is the OS routine and [ls] the loader
    state ([in_private_library] reads its [modlist_areas]).  [None] is the
    NULL dereference of [fls_cb_list->next] before [loader_init]. *)
Definition redirect_FlsAlloc (FlsAlloc : Z -> Z) (ls : state) (cb : Z) (s : fls_state)
  : option (Z * fls_state) :=
  if fst (in_private_library cb ls) then
    match fls_cb_list s with
    | [] => None
    | head :: rest =>
        let s1 := set_cb_list (head :: cb :: rest) s in
        let s2 := if Heap.in_ranges cb (f_dr_areas s1) then s1
                  else set_dr_areas ((cb, cb + 1) :: f_dr_areas s1) s1 in
        Some (FlsAlloc cb, s2)
    end
  else Some (FlsAlloc cb, s).

(** [private_lib_handle_cb] on the X64 build: the argument is in [xcx].  The
    first node whose [cb] is [pc] (the head node never matches) is run
    natively and its return address becomes the next tag. *)
Definition private_lib_handle_cb (pc : Z) (s : fls_state) : bool * fls_state :=
  if existsb (fun e => andb (negb (Z.eqb e 0)) (Z.eqb e pc)) (fls_cb_list s) then
    let mc := f_mc s in
    if Heap.in_ranges (xsp mc) (f_readable s) then
      let retaddr := f_mem s (xsp mc) in
      let arg := xcx mc in
      (true,
       {| fls_cb_list := fls_cb_list s; f_dr_areas := f_dr_areas s; f_mem := f_mem s;
          f_readable := f_readable s;
          f_mc := {| xsp := xsp mc + XSP_SZ; xcx := xcx mc |};
          f_next_tag := retaddr;
          f_calls := (pc, arg) :: f_calls s |})
    else (false, s)   (* safe_read failed: ASSERT_NOT_REACHED, not redirected *)
  else (false, s).

End Fls.

(** ** Helpers for the statements about these routines *)

(** Whether [privload_call_entry] runs a module's entry routine during the
    thread notifications: not for an externally loaded module, nor when the
    entry is NULL or the base. *)
Definition calls_entry (s : state) (m : privmod) : bool :=
  let e := fst (get_module_entry (pm_base m) s) in
  andb (negb (pm_ext m)) (andb (negb (Z.eqb e 0)) (negb (Z.eqb e (pm_base m)))).

(** The references the registry holds, plus one per record: each
    [privload_unload] of a registered module lowers it. *)
Fixpoint weight (l : list privmod) : nat :=
  match l with
  | [] => O
  | m :: l' => S (pm_ref m) + weight l'
  end.

(** The paths [privload_locate_and_load] tries, in its order: the client
    library directories, then, when the system root is known, its system32
    directory and the root itself. *)
Definition locate_candidates (s : state) (impname : string) : list string :=
  map (fun d => modpath_of (d ++ "/" ++ impname)) (st_search s) ++
  (if String.eqb (st_systemroot s) EmptyString then []
   else [modpath_of (st_systemroot s ++ "/system32/" ++ impname);
         modpath_of (st_systemroot s ++ "/" ++ impname)]).

(** The first candidate that exists and loads. *)
Fixpoint try_candidates (load : string -> option Z -> M (option Z))
  (paths : list string) (dependent : Z) : M (option Z) :=
  match paths with
  | [] => ret None
  | p :: ps =>
      r <- try_path load p dependent ;;
      match r with
      | Some m => ret (Some m)
      | None => try_candidates load ps dependent
      end
  end.

(** ** Frames of the unloading routines *)

(** [s'] keeps no module that [s] did not have, and extends its log. *)
Definition shrinks (s s' : state) : Prop :=
  (forall x, In x (map pm_base (st_modlist s')) -> In x (map pm_base (st_modlist s))) /\
  (exists pre, st_log s' = pre ++ st_log s).

Definition Shrinking {A} (m : M A) : Prop := forall s, shrinks s (snd (m s)).

(** The process after a root load of [L.dll], a library without imports. *)
Definition s_L : state := snd (load_private_library FUEL "L.dll" s_init).
(** The process after a root load of [A.dll] (and of its import [B.dll]). *)
Definition s_A : state := snd (load_private_library FUEL "A.dll" s_init).
Definition B_BASE : Z := FIRST_MAP + 20480.

(** ** Frames and sample states of the statements about the entry points *)

(** [m] never raises the total reference count of the registry. *)
Definition NonIncr {A} (m : M A) : Prop :=
  forall s, (weight (st_modlist (snd (m s))) <= weight (st_modlist s))%nat.

(** The only effect of a call passed to the OS heap: the call is logged. *)
Definition only_logs (c : Heap.native_call) (s s' : Heap.hstate) : Prop :=
  Heap.h_mem s' = Heap.h_mem s /\ Heap.h_freed s' = Heap.h_freed s /\
  Heap.h_next s' = Heap.h_next s /\ Heap.h_readable s' = Heap.h_readable s /\
  Heap.h_native s' = c :: Heap.h_native s.

(** [hs0] after two 16-byte allocations from the process heap: blocks at
    [HEAP_LO + 8] and [HEAP_LO + 32]. *)
Definition hs_two : Heap.hstate :=
  match Heap.hbind (Heap.redirect_RtlAllocateHeap Heap.os_win 5242880 0 16)
          (fun _ => Heap.redirect_RtlAllocateHeap Heap.os_win 5242880 0 16) Heap.hs0 with
  | Some (_, s) => s
  | None => Heap.hs0
  end.

(** A thread after [loader_init] (the FLS list holds only its head node)
    about to run a callback: its stack holds the return address 4096 at
    [xsp] and its argument register is 42. *)
Definition fls0 : Fls.fls_state :=
  {| Fls.fls_cb_list := [0]; Fls.f_dr_areas := [];
     Fls.f_mem := fun a => if Z.eqb a 1048576 then 4096 else 0;
     Fls.f_readable := [(65536, 2 ^ 47)];
     Fls.f_mc := {| Fls.xsp := 1048576; Fls.xcx := 42 |};
     Fls.f_next_tag := 0; Fls.f_calls := [] |}.

(** * Proofs *)

Lemma shrinks_refl s : shrinks s s.
Proof. split; [auto | exists []; reflexivity]. Qed.

Lemma shrinks_trans s1 s2 s3 : shrinks s1 s2 -> shrinks s2 s3 -> shrinks s1 s3.
Proof.
  intros [H1 [p1 E1]] [H2 [p2 E2]]. split; [auto |].
  exists (p2 ++ p1). rewrite E2, E1, app_assoc. reflexivity.
Qed.

Lemma Shrinking_bind {A B} (m : M A) (k : A -> M B) :
  Shrinking m -> (forall a, Shrinking (k a)) -> Shrinking (bind m k).
Proof.
  intros Hm Hk s. unfold bind. specialize (Hm s).
  destruct (m s) as [a s1]. simpl in Hm.
  eapply shrinks_trans; [exact Hm | exact (Hk a s1)].
Qed.

Lemma Shrinking_ret {A} (a : A) : Shrinking (ret a).
Proof. intros s. apply shrinks_refl. Qed.

Lemma Shrinking_reader {A} (f : state -> A) : Shrinking (fun s => (f s, s)).
Proof. intros s. apply shrinks_refl. Qed.

Lemma map_base_set_ref b r l : map pm_base (set_ref b r l) = map pm_base l.
Proof.
  induction l as [|x l IH]; simpl; [reflexivity |].
  destruct (Z.eqb (pm_base x) b); simpl; [reflexivity | now rewrite IH].
Qed.

Lemma in_remove_mod x b l :
  In x (map pm_base (remove_mod b l)) -> In x (map pm_base l).
Proof.
  induction l as [|y l IH]; simpl; [auto |].
  destruct (Z.eqb (pm_base y) b); simpl; intuition.
Qed.

Lemma Shrinking_set_ref b r :
  Shrinking (modify (fun s => set_modlist (set_ref b r (st_modlist s)) s)).
Proof.
  intros s. split; simpl.
  - intros x. now rewrite map_base_set_ref.
  - exists []. reflexivity.
Qed.

Lemma Shrinking_remove b :
  Shrinking (modify (fun s => set_modlist (remove_mod b (st_modlist s)) s)).
Proof.
  intros s. split; simpl.
  - intros x. apply in_remove_mod.
  - exists []. reflexivity.
Qed.

Lemma Shrinking_call_entry b reason : Shrinking (privload_call_entry b reason).
Proof.
  intros s. unfold privload_call_entry, bind, get_module_entry, image_at, modify, ret.
  simpl. destruct (_ && _); simpl.
  - split; [auto | exists [EvEntry b reason]; reflexivity].
  - apply shrinks_refl.
Qed.

Lemma Shrinking_vmvector_remove lo hi : Shrinking (vmvector_remove lo hi).
Proof. intros s. split; [auto | exists []; reflexivity]. Qed.

Lemma Shrinking_unmap b size : Shrinking (unmap_file b size).
Proof. intros s. split; [auto | exists [EvUnmap b size]; reflexivity]. Qed.

Lemma Shrinking_unload_descs (unload : Z -> M bool) l :
  (forall b, Shrinking (unload b)) -> Shrinking (unload_descs unload l).
Proof.
  intros Hu. induction l as [|d l IH]; simpl; [apply Shrinking_ret |].
  apply Shrinking_bind; [apply Shrinking_reader | intros [b|]].
  - apply Shrinking_bind; [| intros _; exact IH].
    apply Shrinking_bind; [apply Hu | intros; apply Shrinking_ret].
  - apply Shrinking_bind; [apply Shrinking_ret | intros _; exact IH].
Qed.

Lemma Shrinking_unload_imports (unload : Z -> M bool) b :
  (forall b, Shrinking (unload b)) -> Shrinking (privload_unload_imports_with unload b).
Proof.
  intros Hu. unfold privload_unload_imports_with, privload_get_import_descriptor.
  apply Shrinking_bind.
  - apply Shrinking_bind; [apply Shrinking_reader | intros; apply Shrinking_ret].
  - intros [[l|]|]; try apply Shrinking_ret.
    apply Shrinking_bind; [now apply Shrinking_unload_descs | intros; apply Shrinking_ret].
Qed.

Lemma Shrinking_unload fuel b : Shrinking (privload_unload fuel b).
Proof.
  revert b. induction fuel as [|f IH]; intros b; simpl; [apply Shrinking_ret |].
  apply Shrinking_bind; [apply Shrinking_reader | intros [m|]; [| apply Shrinking_ret]].
  apply Shrinking_bind; [apply Shrinking_set_ref | intros _].
  destruct (Nat.eqb (pred (pm_ref m)) 0); [| apply Shrinking_ret].
  apply Shrinking_bind; [apply Shrinking_remove | intros _].
  apply Shrinking_bind; [| intros; apply Shrinking_ret].
  destruct (pm_ext m); [apply Shrinking_ret |].
  apply Shrinking_bind; [apply Shrinking_call_entry | intros _].
  apply Shrinking_bind; [apply Shrinking_unload_imports; exact IH | intros _].
  apply Shrinking_bind; [apply Shrinking_vmvector_remove | intros _].
  apply Shrinking_unmap.
Qed.

Lemma bind_case {A B} (m : M A) (k : A -> M B) s r s' :
  bind m k s = (r, s') -> exists a s1, m s = (a, s1) /\ k a s1 = (r, s').
Proof.
  unfold bind. destruct (m s) as [a s1]. intros H. exists a, s1. auto.
Qed.

Lemma Shrinking_run {A} (m : M A) s a s' :
  Shrinking m -> m s = (a, s') -> shrinks s s'.
Proof. intros Hm E. specialize (Hm s). now rewrite E in Hm. Qed.

Lemma find_mod_base b l m : find_mod b l = Some m -> pm_base m = b.
Proof.
  induction l as [|x l IH]; simpl; [discriminate |].
  destruct (Z.eqb (pm_base x) b) eqn:E; [| exact IH].
  intros H. injection H as <-. now apply Z.eqb_eq.
Qed.

Lemma find_mod_none b l : ~ In b (map pm_base l) -> find_mod b l = None.
Proof.
  induction l as [|x l IH]; simpl; [reflexivity |].
  intros Hn. destruct (Z.eqb (pm_base x) b) eqn:E.
  - apply Z.eqb_eq in E. exfalso. auto.
  - apply IH. auto.
Qed.

Lemma find_mod_set_ref b r l :
  find_mod b (set_ref b r l) = option_map (with_ref r) (find_mod b l).
Proof.
  induction l as [|x l IH]; simpl; [reflexivity |].
  destruct (Z.eqb (pm_base x) b) eqn:E; simpl.
  - unfold with_ref at 1. simpl. now rewrite E.
  - now rewrite E.
Qed.

Lemma not_in_remove_nodup b l :
  NoDup (map pm_base l) -> ~ In b (map pm_base (remove_mod b l)).
Proof.
  induction l as [|y l IH]; simpl; [auto |].
  intros Hnd. inversion Hnd as [|? ? Hy Hl]; subst.
  destruct (Z.eqb (pm_base y) b) eqn:E.
  - apply Z.eqb_eq in E. now subst.
  - simpl. intros [Heq | Hin].
    + apply Z.eqb_neq in E. auto.
    + exact (IH Hl Hin).
Qed.

(** C9: [unload_private_library] reports [true] exactly when the reference
    count drops to zero and the module leaves the registry (and, when not
    externally loaded, its view is unmapped); a known module that stays
    resident yields [false], as does an unknown base. *)
Theorem unload_private_library_result (fuel : nat) (b : Z) (s s' : state) (res : bool) :
  NoDup (map pm_base (st_modlist s)) ->
  unload_private_library (S fuel) b s = (res, s') ->
  match find_mod b (st_modlist s) with
  | None => res = false /\ s' = s
  | Some m =>
      if Nat.leb (pm_ref m) 1 then
        res = true /\ find_mod b (st_modlist s') = None /\
        (pm_ext m = false -> In (EvUnmap b (pm_size m)) (st_log s'))
      else
        res = false /\ find_mod b (st_modlist s') = Some (with_ref (pred (pm_ref m)) m) /\
        st_maps s' = st_maps s
  end.
Proof.
  intros Hnd H. unfold unload_private_library in H.
  apply bind_case in H as (om & s1 & H1 & H2).
  unfold privload_lookup_by_base in H1. injection H1 as <- <-.
  destruct (find_mod b (st_modlist s)) as [m|] eqn:Ef; simpl in H2.
  2:{ injection H2 as <- <-. auto. }
  rewrite (find_mod_base _ _ _ Ef) in H2.
  cbn [privload_unload] in H2.
  apply bind_case in H2 as (om & s2 & H3 & H4).
  unfold get_mod in H3. rewrite Ef in H3. injection H3 as <- <-.
  apply bind_case in H4 as (u & s3 & H5 & H6).
  unfold modify in H5. injection H5 as <- <-.
  set (s3 := set_modlist (set_ref b (pred (pm_ref m)) (st_modlist s)) s) in *.
  assert (Hnd3 : NoDup (map pm_base (st_modlist s3))).
  { subst s3. simpl. now rewrite map_base_set_ref. }
  destruct (pm_ref m) as [|[|n]] eqn:Er; simpl in H6 |- *.
  1,2:
    apply bind_case in H6 as (u4 & s4 & H7 & H8);
    unfold modify in H7; injection H7 as <- <-;
    set (s4 := set_modlist (remove_mod b (st_modlist s3)) s3) in *;
    assert (Hb4 : ~ In b (map pm_base (st_modlist s4)))
      by (subst s4; simpl; now apply not_in_remove_nodup);
    apply bind_case in H8 as (u5 & s5 & H9 & H10);
    unfold ret in H10; injection H10 as <- <-;
    split; [reflexivity |];
    destruct (pm_ext m) eqn:Ex;
    [ unfold ret in H9; injection H9 as <- <-;
      split; [now apply find_mod_none | discriminate]
    | apply bind_case in H9 as (u6 & s6 & Ha & Hb);
      apply bind_case in Hb as (u7 & s7 & Hc & Hd);
      apply bind_case in Hd as (u8 & s8 & He & Hf);
      pose proof (Shrinking_run _ _ _ _ (Shrinking_call_entry _ _) Ha) as S1;
      pose proof (Shrinking_run _ _ _ _ (Shrinking_unload_imports _ _
                    (Shrinking_unload fuel)) Hc) as S2;
      pose proof (Shrinking_run _ _ _ _ (Shrinking_vmvector_remove _ _) He) as S3;
      unfold unmap_file, modify in Hf; injection Hf as _ <-;
      split;
      [ apply find_mod_none; simpl; intros Hin;
        apply Hb4, (proj1 S1), (proj1 S2), (proj1 S3), Hin
      | intros _; simpl; left; reflexivity ] ].
  injection H6 as <- <-. subst s3. simpl.
  split; [reflexivity |]. split; [| reflexivity].
  now rewrite find_mod_set_ref, Ef.
Qed.

Ltac solve_nodup := vm_compute; repeat constructor; simpl; intuition discriminate.

Lemma unload_private_library_result_witness :
  NoDup (map pm_base (st_modlist s_L)) /\
  fst (unload_private_library (S FUEL) FIRST_MAP s_L) = true /\
  find_mod FIRST_MAP (st_modlist (snd (unload_private_library (S FUEL) FIRST_MAP s_L))) = None.
Proof.
  assert (Hnd : NoDup (map pm_base (st_modlist s_L))) by solve_nodup.
  pose proof (unload_private_library_result FUEL FIRST_MAP s_L _ _ Hnd
                (surjective_pairing _)) as H.
  assert (E : find_mod FIRST_MAP (st_modlist s_L) =
              Some {| pm_base := FIRST_MAP; pm_size := 20480; pm_name := "L.dll";
                      pm_ref := 1; pm_ext := false |}) by (vm_compute; reflexivity).
  rewrite E in H. simpl in H.
  destruct H as (H1 & H2 & _). auto.
Defined.

(** C10: when the entry address is NULL or equals the module base, for any
    reason code, [privload_call_entry] calls nothing and returns [true]. *)
Theorem privload_call_entry_no_entry (b reason : Z) (s : state) :
  fst (get_module_entry b s) = 0 \/ fst (get_module_entry b s) = b ->
  privload_call_entry b reason s = (true, s).
Proof.
  intros H. unfold privload_call_entry, bind.
  change (get_module_entry b s) with (fst (get_module_entry b s), s).
  destruct H as [H | H]; rewrite H.
  - reflexivity.
  - rewrite Z.eqb_refl, andb_false_r. reflexivity.
Qed.

Lemma privload_call_entry_no_entry_witness :
  (fst (get_module_entry B_BASE s_A) = 0 \/ fst (get_module_entry B_BASE s_A) = B_BASE) /\
  privload_call_entry B_BASE DLL_THREAD_ATTACH s_A = (true, s_A).
Proof.
  assert (H : fst (get_module_entry B_BASE s_A) = 0 \/
              fst (get_module_entry B_BASE s_A) = B_BASE) by (right; vm_compute; reflexivity).
  split; [exact H | exact (privload_call_entry_no_entry B_BASE DLL_THREAD_ATTACH s_A H)].
Defined.

(** C8: a view placed away from its preferred base is unmapped and the load
    fails when the image is not relocatable; a relocatable one is rebased in
    place by the displacement, and is kept exactly when the rebase succeeds. *)
Theorem map_and_relocate_relocation (filename : string) (img : image) (s s' : state)
  (r : option (Z * Z)) :
  st_fs s filename = Some img ->
  privload_map_and_relocate filename s = (r, s') ->
  let base := st_next_map s in
  let size := im_size img in
  (im_pref img = base -> r = Some (base, size) /\ st_log s' = EvMap base size :: st_log s) /\
  (im_pref img <> base -> im_reloc img = false ->
     r = None /\ st_log s' = EvUnmap base size :: EvMap base size :: st_log s /\
     st_maps s' = st_maps s) /\
  (im_pref img <> base -> im_reloc img = true ->
     In (EvRebase base (base - im_pref img)) (st_log s') /\
     (r = Some (base, size) <-> im_rebase_ok img = true) /\
     (im_rebase_ok img = false -> st_maps s' = st_maps s)).
Proof.
  intros Hfs H. unfold privload_map_and_relocate, bind, get in H.
  rewrite Hfs in H. unfold map_file in H. cbv zeta in H |- *.
  destruct (Z.eqb (im_pref img) (st_next_map s)) eqn:Ep.
  - apply Z.eqb_eq in Ep. unfold ret in H. injection H as <- <-.
    split; [auto | split; intros Hne; contradiction].
  - apply Z.eqb_neq in Ep.
    split; [intros; contradiction |].
    destruct (im_reloc img) eqn:Er; simpl in H.
    + split; [discriminate | intros _ _].
      unfold modify in H. simpl in H.
      destruct (im_rebase_ok img) eqn:Eok; simpl in H.
      * unfold ret in H. injection H as <- <-. simpl.
        split; [left; reflexivity | split; [tauto | discriminate]].
      * unfold unmap_file, modify, ret in H. injection H as <- <-. simpl.
        rewrite Z.eqb_refl.
        split; [right; left; reflexivity | split; [split; discriminate | reflexivity]].
    + split; [| intros _ Hr; discriminate].
      intros _ _. unfold unmap_file, modify, ret in H. injection H as <- <-. simpl.
      rewrite Z.eqb_refl. auto.
Qed.

Lemma map_and_relocate_relocation_witness :
  st_fs s_init "A.dll" = Some A_img /\
  In (EvRebase FIRST_MAP (FIRST_MAP - im_pref A_img))
     (st_log (snd (privload_map_and_relocate "A.dll" s_init))).
Proof.
  assert (Hfs : st_fs s_init "A.dll" = Some A_img) by reflexivity.
  pose proof (map_and_relocate_relocation "A.dll" A_img s_init _ _ Hfs
                (surjective_pairing _)) as H.
  cbv zeta in H. destruct H as (_ & _ & H).
  split; [exact Hfs |].
  apply H; vm_compute; [discriminate | reflexivity].
Defined.

(** ** Registry order *)

Lemma index_of_insert_after l after m :
  ~ In (pm_base m) (map pm_base l) -> In after (map pm_base l) ->
  index_of (pm_base m) (insert_after after m l) = option_map S (index_of after l) /\
  index_of after (insert_after after m l) = index_of after l /\
  remove_mod (pm_base m) (insert_after after m l) = l.
Proof.
  induction l as [|x l IH]; simpl; [contradiction |].
  intros Hm Ha.
  assert (Hx : Z.eqb (pm_base x) (pm_base m) = false) by (apply Z.eqb_neq; auto).
  destruct (Z.eqb (pm_base x) after) eqn:E; simpl.
  - rewrite Hx, E, Z.eqb_refl. auto.
  - rewrite Hx, E. apply Z.eqb_neq in E.
    destruct IH as (H1 & H2 & H3); [auto | destruct Ha; [contradiction | assumption] |].
    rewrite H1, H2, H3. auto.
Qed.

(** C1 (as the code keeps it): [privload_insert], which [privload_load]
    calls with the dependent before processing imports, puts the new module
    immediately after its dependent, or at the front for a root load, and
    leaves the other modules in their order: a freshly loaded dependency
    comes after the module that imports it. *)
Theorem privload_insert_after_dependent (after : option Z) (base size : Z)
  (name : string) (s : state) :
  ~ In base (map pm_base (st_modlist s)) ->
  (forall d, after = Some d -> In d (map pm_base (st_modlist s))) ->
  let l' := st_modlist (snd (privload_insert after base size name s)) in
  remove_mod base l' = st_modlist s /\
  match after with
  | None => index_of base l' = Some 0%nat
  | Some d => index_of d l' = index_of d (st_modlist s) /\
              index_of base l' = option_map S (index_of d l')
  end.
Proof.
  intros Hb Ha. cbv zeta. unfold privload_insert, bind, modify, ret. simpl.
  destruct after as [d|]; simpl.
  - destruct (index_of_insert_after (st_modlist s) d
                {| pm_base := base; pm_size := size; pm_name := name;
                   pm_ref := 1; pm_ext := false |} Hb (Ha d eq_refl))
      as (H1 & H2 & H3).
    simpl in H1, H3. rewrite H1, H2, H3. auto.
  - rewrite Z.eqb_refl. auto.
Qed.

Lemma privload_insert_after_dependent_witness :
  ~ In FIRST_MAP (map pm_base (st_modlist s_init)) /\
  index_of FIRST_MAP
    (st_modlist (snd (privload_insert (Some NTDLL_BASE) FIRST_MAP 4096 "X.dll" s_init)))
  = Some 1%nat.
Proof.
  assert (Hb : ~ In FIRST_MAP (map pm_base (st_modlist s_init)))
    by (vm_compute; intuition discriminate).
  assert (Ha : forall d, Some NTDLL_BASE = Some d -> In d (map pm_base (st_modlist s_init)))
    by (intros d Hd; injection Hd as <-; vm_compute; auto).
  pose proof (privload_insert_after_dependent (Some NTDLL_BASE) FIRST_MAP 4096 "X.dll"
                s_init Hb Ha) as H.
  cbv zeta in H. destruct H as (_ & H2 & H3).
  split; [exact Hb |]. rewrite H3, H2. reflexivity.
Defined.

(** C1 refuted: loading the root [A.dll], which imports the new [B.dll],
    leaves [B.dll] after [A.dll], so a direct dependency does not precede its
    dependent although the order held before the load. *)
Lemma registry_order_counterexample :
  deps_before s_init = true /\
  fst (load_private_library FUEL "A.dll" s_init) = Some FIRST_MAP /\
  map pm_name (st_modlist s_A) = ["A.dll"; "B.dll"; "ntdll.dll"]%string /\
  deps_before s_A = false.
Proof. vm_compute. repeat split. Qed.

(** ** Ordinal imports *)

(** C2 (code): a library whose only import slot is an ordinal loads
    successfully; the slot is skipped and the IAT keeps the ordinal. *)
Theorem ordinal_import_is_skipped :
  fst (load_private_library FUEL "A2.dll" s_init) = Some FIRST_MAP /\
  st_mem (snd (load_private_library FUEL "A2.dll" s_init)) (FIRST_MAP + 12288) = ORD5 /\
  fst (privload_process_one_import (privload_locate_and_load (privload_load FUEL)) FUEL
         FIRST_MAP B_BASE (FIRST_MAP + 8192) (FIRST_MAP + 12288)
         (fst (before_imports "A2.dll"))) = true.
Proof. vm_compute. repeat split. Qed.

(** ** IAT page protection *)

(** C3 (code): [A3.dll]'s second import is missing from [B.dll];
    [privload_process_imports] returns [false] with the IAT page still
    writable, while it was read-only before. *)
Theorem process_imports_failure_keeps_page_writable :
  st_prot (fst (before_imports "A3.dll")) (PAGE_START (FIRST_MAP + 12288)) = PAGE_READONLY /\
  fst (run_process_imports "A3.dll") = false /\
  st_prot (snd (run_process_imports "A3.dll")) (PAGE_START (FIRST_MAP + 12288))
    = PAGE_READWRITE.
Proof. vm_compute. repeat split. Qed.

(** ** Re-loading a resident library *)

(** C4 (code): two loads of [L.dll] give the same base, but the first
    unload already removes it and the second reports an unknown base. *)
Theorem reload_takes_no_reference :
  let (r1, s1) := load_private_library FUEL "L.dll" s_init in
  let (r2, s2) := load_private_library FUEL "L.dll" s1 in
  let (u1, s3) := unload_private_library FUEL FIRST_MAP s2 in
  let (u2, _) := unload_private_library FUEL FIRST_MAP s3 in
  r1 = Some FIRST_MAP /\ r2 = Some FIRST_MAP /\ u1 = true /\
  find_mod FIRST_MAP (st_modlist s3) = None /\ u2 = false.
Proof. vm_compute. repeat split. Qed.

(** ** Forwarder chains *)

(** C7 (code): [A7.dll] imports [Foo] and [Bar] from [K.dll], which forwards
    them to [LONGMOD.Foo] and [KB.Bar].  The second forwarder leaves
    "KB.dllD" in [forwmodpath] (a stale byte of "LONGMOD.dll" survives the
    terminator written one byte too far), no such module exists, and the load
    fails although [KB.dll] is on the system path and exports [Bar]. *)
Theorem forwarder_module_name_stale :
  (match build_forwmodpath (fun _ => Ascii.zero) "LONGMOD.Foo" with
   | Some (b1, f1) =>
       cstr b1 = "LONGMOD.dll"%string /\ f1 = "Foo"%string /\
       match build_forwmodpath b1 "KB.Bar" with
       | Some (b2, f2) => cstr b2 = "KB.dllD"%string /\ f2 = "Bar"%string
       | None => False
       end
   | None => False
   end) /\
  option_map (fun i => assoc_str "Bar" (im_exports i))
    (st_fs s_init "C:/Windows/system32/KB.dll") = Some (Some (ExpFunc 4352)) /\
  fst (load_private_library FUEL "A7.dll" s_init) = None /\
  cstr (st_forwmodpath (snd (load_private_library FUEL "A7.dll" s_init)))
    = "KB.dllD"%string.
Proof. vm_compute. repeat split. Qed.

(** Under the C standard's [snprintf] the same code would drop the ".dll"
    altogether. *)
Lemma forwarder_module_name_c99 :
  match build_forwmodpath_c99 (fun _ => Ascii.zero) "KB.Bar" with
  | Some (b, f) => cstr b = "KB"%string /\ f = "Bar"%string
  | None => False
  end.
Proof. vm_compute. split; reflexivity. Qed.

(** ** Redirected heap routines *)

(** C5 (code): a 64-byte block from the process heap is returned past an
    8-byte header holding 72, the total size; [redirect_RtlSizeHeap] then
    reports that header value, 72, not the requested 64, while
    [redirect_RtlFreeHeap] succeeds.  This holds whatever the OS routines. *)
Theorem size_heap_reports_total_size (os : Heap.os_heap) :
  match Heap.redirect_RtlAllocateHeap os 5242880 0 64 Heap.hs0 with
  | Some (p, s1) =>
      p = Heap.HEAP_LO + 8 /\ Heap.h_mem s1 Heap.HEAP_LO = 72 /\
      option_map fst (Heap.redirect_RtlSizeHeap os 5242880 0 p s1) = Some 72 /\
      option_map fst (Heap.redirect_RtlFreeHeap os 5242880 0 p s1) = Some true
  | None => False
  end.
Proof. vm_compute. repeat split. Qed.

(** C6 (code): NULL is not a host address, so on the process heap a NULL
    free or size request is passed to the OS routine (whose answer is
    returned: [true] and (SIZE_T)-1 for ntdll's), and a NULL realloc reads
    the header word at NULL - 8 and faults instead of allocating. *)
Theorem null_block_requests (os : Heap.os_heap) :
  option_map fst (Heap.redirect_RtlFreeHeap os 5242880 0 0 Heap.hs0)
    = Some (Heap.RtlFreeHeap os 5242880 0 0) /\
  option_map (fun r => Heap.h_native (snd r)) (Heap.redirect_RtlFreeHeap os 5242880 0 0 Heap.hs0)
    = Some [Heap.NFree 5242880 0 0] /\
  option_map fst (Heap.redirect_RtlSizeHeap os 5242880 0 0 Heap.hs0)
    = Some (Heap.RtlSizeHeap os 5242880 0 0) /\
  option_map (fun r => Heap.h_native (snd r)) (Heap.redirect_RtlSizeHeap os 5242880 0 0 Heap.hs0)
    = Some [Heap.NSize 5242880 0 0] /\
  Heap.redirect_RtlReAllocateHeap os 5242880 0 0 64 Heap.hs0 = None /\
  option_map fst (Heap.redirect_RtlFreeHeap Heap.os_win 5242880 0 0 Heap.hs0) = Some true /\
  option_map fst (Heap.redirect_RtlSizeHeap Heap.os_win 5242880 0 0 Heap.hs0)
    = Some (2 ^ 64 - 1).
Proof. vm_compute. repeat split. Qed.

(** * Further properties of the loader *)

(** ** Entry points and redirected queries *)






Lemma strcasecmp_eq_congr a b c :
  strcasecmp_eq a b = true -> strcasecmp_eq a c = strcasecmp_eq b c.
Proof.
  unfold strcasecmp_eq. intros H. apply String.eqb_eq in H. now rewrite H.
Qed.

Lemma redirect_find_congr a b t :
  strcasecmp_eq a b = true -> redirect_find a t = redirect_find b t.
Proof.
  intros H. induction t as [|[n f] t IH]; simpl; [reflexivity |].
  now rewrite (strcasecmp_eq_congr _ _ n H), IH.
Qed.

(** [redirect_GetProcAddress] on a private [ntdll.dll] (or [kernel32.dll])
    returns the private replacement routine of every name of its redirection
    table, matched case-insensitively, instead of the module's export. *)
Theorem redirect_GetProcAddress_tables (GetProcAddress : Z -> string -> Z)
  (modbase : Z) (name n : string) (f : Z) (s : state) (m : privmod) :
  find_mod modbase (st_modlist s) = Some m ->
  (strcasecmp_eq (pm_name m) "ntdll.dll" = true /\ In (n, f) redirect_ntdll) \/
  (strcasecmp_eq (pm_name m) "ntdll.dll" = false /\
   strcasecmp_eq (pm_name m) "kernel32.dll" = true /\ In (n, f) redirect_kernel32) ->
  strcasecmp_eq name n = true ->
  redirect_GetProcAddress GetProcAddress modbase name s = (f, s).
Proof.
  intros Hf Ht Hn.
  unfold redirect_GetProcAddress, bind, privload_lookup_by_base.
  rewrite Hf. cbn [option_map]. unfold privload_redirect_imports, bind, get_mod.
  rewrite (find_mod_base _ _ _ Hf), Hf.
  rewrite !(redirect_find_congr name n _ Hn).
  destruct Ht as [(H1 & Hin) | (H1 & H2 & Hin)]; cbn [ret]; rewrite H1; [| rewrite H2];
    simpl in Hin; repeat destruct Hin as [Hin | Hin];
    try (injection Hin as <- <-; reflexivity); contradiction.
Qed.

Lemma redirect_GetProcAddress_tables_witness :
  redirect_GetProcAddress (fun _ _ => 0) NTDLL_BASE "rtlfreeheap" s_init
  = (redirect_RtlFreeHeap_addr, s_init).
Proof.
  apply (redirect_GetProcAddress_tables (fun _ _ => 0) NTDLL_BASE "rtlfreeheap"
           "RtlFreeHeap" redirect_RtlFreeHeap_addr s_init
           {| pm_base := NTDLL_BASE; pm_size := 4096; pm_name := "ntdll.dll";
              pm_ref := 1; pm_ext := true |}).
  - reflexivity.
  - left. split; [reflexivity |]. simpl. do 5 right. left. reflexivity.
  - reflexivity.
Defined.


(** [redirect_GetProcAddress] on a private module other than [ntdll.dll]
    and [kernel32.dll] returns the address of the named exported routine; a
    forwarded or missing export gives NULL (the forwarder is not followed). *)
Theorem redirect_GetProcAddress_exports (GetProcAddress : Z -> string -> Z)
  (modbase : Z) (name : string) (s : state) (m : privmod) (img : image) :
  find_mod modbase (st_modlist s) = Some m ->
  strcasecmp_eq (pm_name m) "ntdll.dll" = false ->
  strcasecmp_eq (pm_name m) "kernel32.dll" = false ->
  assoc modbase (st_maps s) = Some img ->
  redirect_GetProcAddress GetProcAddress modbase name s =
  (match assoc_str name (im_exports img) with
   | Some (ExpFunc r) => modbase + r
   | Some (ExpForward _) | None => 0
   end, s).
Proof.
  intros Hf H1 H2 Hi.
  unfold redirect_GetProcAddress, bind, privload_lookup_by_base.
  rewrite Hf. cbn [option_map]. unfold privload_redirect_imports, bind, get_mod.
  rewrite (find_mod_base _ _ _ Hf), Hf. unfold ret. rewrite H1, H2.
  unfold get_proc_address_ex, bind, image_at. rewrite Hi. unfold ret.
  destruct (assoc_str name (im_exports img)) as [[r|f]|]; reflexivity.
Qed.

Lemma redirect_GetProcAddress_exports_witness :
  redirect_GetProcAddress (fun _ _ => 0) B_BASE "Foo" s_A = (B_BASE + 4352, s_A).
Proof.
  rewrite (redirect_GetProcAddress_exports (fun _ _ => 0) B_BASE "Foo" s_A
             {| pm_base := B_BASE; pm_size := 20480; pm_name := "B.dll";
                pm_ref := 1; pm_ext := false |} B_img);
    [reflexivity | vm_compute; reflexivity ..].
Defined.


(** [loader_thread_init] and [loader_thread_exit] run, walking the registry
    from its front, the entry routine of every module that is not externally
    loaded and whose entry is neither NULL nor the base, with
    [DLL_THREAD_ATTACH] and [DLL_THREAD_DETACH] respectively; nothing else
    changes. *)
Theorem loader_thread_notifications (s : state) :
  let entries reason :=
    fold_left (fun s' m => add_log (EvEntry (pm_base m) reason) s')
      (filter (calls_entry s) (st_modlist s)) s in
  loader_thread_init s = (tt, entries DLL_THREAD_ATTACH) /\
  loader_thread_exit s = (tt, entries DLL_THREAD_DETACH).
Proof.
  assert (G : forall reason l s0,
    notify_modules l reason s0 =
    (tt, fold_left (fun s' m => add_log (EvEntry (pm_base m) reason) s')
           (filter (calls_entry s0) l) s0)).
  { intros reason l. induction l as [|m l IH]; intros s0; [reflexivity |].
    cbn [notify_modules filter]. unfold calls_entry at 1.
    destruct (pm_ext m) eqn:Ex; simpl.
    - apply IH.
    - unfold privload_call_entry, bind, get_module_entry, image_at, modify, ret.
      destruct (andb (negb (Z.eqb _ 0)) (negb (Z.eqb _ (pm_base m)))) eqn:Ec;
        simpl; rewrite IH; reflexivity. }
  split; unfold loader_thread_init, loader_thread_exit, bind, get; apply G.
Qed.

Lemma remove_set_ref b r l : remove_mod b (set_ref b r l) = remove_mod b l.
Proof.
  induction l as [|x l IH]; simpl; [reflexivity |].
  destruct (Z.eqb (pm_base x) b) eqn:E; simpl; rewrite E; [reflexivity | now rewrite IH].
Qed.

(** Releasing the only reference of an externally loaded module only removes
    it from the registry: no entry routine runs, no import is released and
    nothing is unmapped. *)
Theorem privload_unload_external (fuel : nat) (b : Z) (s : state) (m : privmod) :
  find_mod b (st_modlist s) = Some m -> pm_ext m = true -> pm_ref m = 1%nat ->
  privload_unload (S fuel) b s = (true, set_modlist (remove_mod b (st_modlist s)) s).
Proof.
  intros Hf Hx Hr. cbn [privload_unload].
  unfold bind, get_mod, modify, ret. rewrite Hf.
  replace (Nat.eqb (pred (pm_ref m)) 0) with true by (symmetry; apply Nat.eqb_eq; lia).
  rewrite Hx. simpl. now rewrite remove_set_ref.
Qed.

Lemma privload_unload_external_witness :
  find_mod NTDLL_BASE (st_modlist s_init) =
    Some {| pm_base := NTDLL_BASE; pm_size := 4096; pm_name := "ntdll.dll";
            pm_ref := 1; pm_ext := true |} /\
  st_modlist (snd (privload_unload (S FUEL) NTDLL_BASE s_init)) = [].
Proof.
  assert (Hf : find_mod NTDLL_BASE (st_modlist s_init) =
    Some {| pm_base := NTDLL_BASE; pm_size := 4096; pm_name := "ntdll.dll";
            pm_ref := 1; pm_ext := true |}) by reflexivity.
  split; [exact Hf |].
  rewrite (privload_unload_external FUEL NTDLL_BASE s_init _ Hf eq_refl eq_refl).
  vm_compute. reflexivity.
Defined.

(** [loader_init] without static client libraries leaves the registry with
    [user32.dll] (when loaded), [dynamorio.dll] and [ntdll.dll] in front of
    what it held, each externally loaded with one reference; the private
    library areas are empty and the system root is the registry value, when
    there is one. *)
Theorem loader_init_registry (reg : option string) (ntdll ntdll_size drdll drdll_size : Z)
  (user32 : option (Z * Z)) (fuel : nat) (s : state) :
  let s' := snd (loader_init reg ntdll ntdll_size drdll drdll_size user32 [] fuel s) in
  let ext b size name := {| pm_base := b; pm_size := size; pm_name := name;
                            pm_ref := 1; pm_ext := true |} in
  st_modlist s' =
    match user32 with
    | Some (u, usize) => [ext u usize "user32.dll"%string]
    | None => []
    end ++
    [ext drdll drdll_size DYNAMORIO_LIBRARY_NAME; ext ntdll ntdll_size "ntdll.dll"%string] ++
    st_modlist s /\
  st_areas s' = [] /\
  st_systemroot s' = match reg with Some v => modpath_of v | None => st_systemroot s end.
Proof.
  cbv zeta. unfold loader_init, privload_init_search_paths, privload_insert,
    mark_external, bind, modify, ret. cbn [finalize_static].
  destruct reg as [v|]; destruct user32 as [[u usize]|]; simpl;
    rewrite ?Z.eqb_refl; simpl; rewrite ?Z.eqb_refl; simpl; rewrite ?Z.eqb_refl;
    auto.
Qed.

(** ** Unloading at exit *)


Lemma NonIncr_bind {A B} (m : M A) (k : A -> M B) :
  NonIncr m -> (forall a, NonIncr (k a)) -> NonIncr (bind m k).
Proof.
  intros Hm Hk s. unfold bind. specialize (Hm s). destruct (m s) as [a s1].
  simpl in Hm. specialize (Hk a s1). lia.
Qed.

Lemma NonIncr_ret {A} (a : A) : NonIncr (ret a).
Proof. intros s. apply le_n. Qed.

Lemma NonIncr_reader {A} (f : state -> A) : NonIncr (fun s => (f s, s)).
Proof. intros s. apply le_n. Qed.

Lemma NonIncr_call_entry b reason : NonIncr (privload_call_entry b reason).
Proof.
  intros s. unfold privload_call_entry, bind, get_module_entry, image_at, modify, ret.
  simpl. destruct (_ && _); simpl; apply le_n.
Qed.

Lemma NonIncr_unload_descs (unload : Z -> M bool) l :
  (forall b, NonIncr (unload b)) -> NonIncr (unload_descs unload l).
Proof.
  intros Hu. induction l as [|d l IH]; simpl; [apply NonIncr_ret |].
  apply NonIncr_bind; [apply NonIncr_reader | intros [b|]].
  - apply NonIncr_bind; [| intros _; exact IH].
    apply NonIncr_bind; [apply Hu | intros; apply NonIncr_ret].
  - apply NonIncr_bind; [apply NonIncr_ret | intros _; exact IH].
Qed.

Lemma NonIncr_unload_imports (unload : Z -> M bool) b :
  (forall b, NonIncr (unload b)) -> NonIncr (privload_unload_imports_with unload b).
Proof.
  intros Hu. unfold privload_unload_imports_with, privload_get_import_descriptor.
  apply NonIncr_bind.
  - apply NonIncr_bind; [apply NonIncr_reader | intros; apply NonIncr_ret].
  - intros [[l|]|]; try apply NonIncr_ret.
    apply NonIncr_bind; [now apply NonIncr_unload_descs | intros; apply NonIncr_ret].
Qed.

Lemma weight_set_ref b r l m :
  find_mod b l = Some m -> (weight (set_ref b r l) + pm_ref m = weight l + r)%nat.
Proof.
  induction l as [|x l IH]; simpl; [discriminate |].
  destruct (Z.eqb (pm_base x) b).
  - intros H. injection H as <-. simpl. lia.
  - intros H. specialize (IH H). simpl. lia.
Qed.

Lemma weight_remove b l m :
  find_mod b l = Some m -> (weight (remove_mod b l) + S (pm_ref m) = weight l)%nat.
Proof.
  induction l as [|x l IH]; simpl; [discriminate |].
  destruct (Z.eqb (pm_base x) b).
  - intros H. injection H as <-. lia.
  - intros H. specialize (IH H). simpl. lia.
Qed.

Lemma unload_step_lt f b s m :
  (forall b', NonIncr (privload_unload f b')) ->
  find_mod b (st_modlist s) = Some m ->
  (weight (st_modlist (snd (privload_unload (S f) b s))) < weight (st_modlist s))%nat.
Proof.
  intros Hni Ef.
  cbn [privload_unload]. unfold bind at 1, get_mod. rewrite Ef.
  unfold bind at 1, modify.
  set (s1 := set_modlist (set_ref b (pred (pm_ref m)) (st_modlist s)) s).
  assert (W1 := weight_set_ref b (pred (pm_ref m)) _ _ Ef).
  assert (E1 : find_mod b (st_modlist s1) = Some (with_ref (pred (pm_ref m)) m))
    by (simpl; now rewrite find_mod_set_ref, Ef).
  destruct (Nat.eqb (pred (pm_ref m)) 0) eqn:Ez.
  - unfold bind at 1, modify.
    set (s2 := set_modlist (remove_mod b (st_modlist s1)) s1).
    assert (W2 := weight_remove b _ _ E1). simpl in W2.
    match goal with |- (weight (st_modlist (snd (bind ?X ?K s2))) < _)%nat =>
      assert (Hrest : NonIncr (bind X K)) end.
    { apply NonIncr_bind; [| intros; apply NonIncr_ret].
      destruct (pm_ext m); [apply NonIncr_ret |].
      apply NonIncr_bind; [apply NonIncr_call_entry | intros _].
      apply NonIncr_bind; [apply NonIncr_unload_imports; exact Hni | intros _].
      apply NonIncr_bind; [intros s'; apply le_n | intros _]. intros s'; apply le_n. }
    specialize (Hrest s2). subst s2 s1. simpl in *. lia.
  - simpl. subst s1. simpl. apply Nat.eqb_neq in Ez. lia.
Qed.

Lemma unload_none f b s :
  find_mod b (st_modlist s) = None -> privload_unload (S f) b s = (false, s).
Proof.
  intros Ef. cbn [privload_unload]. unfold bind, get_mod. rewrite Ef. reflexivity.
Qed.

Lemma NonIncr_unload fuel : forall b, NonIncr (privload_unload fuel b).
Proof.
  induction fuel as [|f IH]; intros b s; [apply le_n |].
  destruct (find_mod b (st_modlist s)) as [m|] eqn:Ef.
  - apply Nat.lt_le_incl. exact (unload_step_lt f b s m IH Ef).
  - rewrite (unload_none f b s Ef). apply le_n.
Qed.

Lemma unload_front_empties n fuel :
  forall s, (weight (st_modlist s) <= n)%nat ->
  st_modlist (snd (unload_front n (S fuel) s)) = [].
Proof.
  induction n as [|n IH]; intros s Hw.
  - simpl. destruct (st_modlist s) as [|m l] eqn:E; [reflexivity |].
    simpl in Hw. lia.
  - cbn [unload_front]. unfold bind at 1, get.
    destruct (st_modlist s) as [|m l] eqn:E; [exact E |].
    unfold bind. destruct (privload_unload (S fuel) (pm_base m) s) as [r s1] eqn:E1.
    apply IH.
    assert (Hf : find_mod (pm_base m) (st_modlist s) = Some m)
      by (rewrite E; simpl; now rewrite Z.eqb_refl).
    pose proof (unload_step_lt fuel (pm_base m) s m (NonIncr_unload fuel) Hf) as Hlt.
    rewrite E1 in Hlt. simpl in Hlt. rewrite E in Hlt. simpl in Hw, Hlt |- *. lia.
Qed.

(** [loader_exit] unloads modules from the front of the registry until it is
    empty, and leaves no private library area, when every module holds a
    reference (as [privload_unload] asserts) and the loop bound is at least the
    registry's total reference count plus its length. *)
Theorem loader_exit_empties (n fuel : nat) (s : state) :
  Forall (fun m => (1 <= pm_ref m)%nat) (st_modlist s) ->
  (weight (st_modlist s) <= n)%nat ->
  st_modlist (snd (loader_exit n (S fuel) s)) = [] /\
  st_areas (snd (loader_exit n (S fuel) s)) = [].
Proof.
  intros _ Hw. unfold loader_exit, bind, modify.
  pose proof (unload_front_empties n fuel s Hw) as H.
  destruct (unload_front n (S fuel) s) as [u s1]. simpl in *. auto.
Qed.

Lemma loader_exit_empties_witness :
  (weight (st_modlist s_A) <= 6)%nat /\
  st_modlist (snd (loader_exit 6 (S FUEL) s_A)) = [].
Proof.
  assert (Hr : Forall (fun m => (1 <= pm_ref m)%nat) (st_modlist s_A))
    by (vm_compute; repeat constructor).
  assert (Hw : (weight (st_modlist s_A) <= 6)%nat) by (vm_compute; repeat constructor).
  split; [exact Hw | apply (loader_exit_empties 6 FUEL s_A Hr Hw)].
Defined.

(** ** The redirected heap routines *)

Module HeapFacts.
Import Heap.

Ltac disch := vm_compute; repeat split; first [reflexivity | discriminate | intros ?; discriminate].

Lemma wrap_id x : 0 <= x < SIZE_T_MOD -> wrap x = x.
Proof. intros H. unfold wrap. apply Z.mod_small. exact H. Qed.

Ltac hsimpl := unfold hbind, hret, hget, is_dynamo_address, hread, hwrite,
                  global_heap_free, native, set_hmem in *;
                cbn [h_process_heap h_mem h_readable h_dr_areas h_next
                     h_limit h_freed h_native andb orb negb] in *.



(** With [HEAP_ZERO_MEMORY] in the flags, [redirect_RtlAllocateHeap] zeroes
    the [size] bytes of the new block; the header word holds [size + 8] and
    memory outside the header and the block is unchanged. *)
Theorem alloc_zero_memory (os : os_heap) (s : hstate) (flags size : Z) :
  0 < h_next s < SIZE_T_MOD ->
  0 <= size -> size + PTR_SZ < SIZE_T_MOD ->
  h_next s + size + PTR_SZ <= h_limit s ->
  in_ranges (h_next s) (h_readable s) = true ->
  Z.land HEAP_ZERO_MEMORY flags <> 0 ->
  exists s1,
    redirect_RtlAllocateHeap os (h_process_heap s) flags size s
      = Some (h_next s + PTR_SZ, s1) /\
    h_mem s1 (h_next s) = size + PTR_SZ /\
    (forall a, h_next s + PTR_SZ <= a < h_next s + PTR_SZ + size -> h_mem s1 a = 0) /\
    (forall a, ~ (h_next s <= a < h_next s + PTR_SZ + size) -> h_mem s1 a = h_mem s a).
Proof.
  intros Hn Hs Hw Hl Hr Hz. change PTR_SZ with 8 in *.
  assert (Ew : wrap (size + 8) = size + 8) by (apply wrap_id; lia).
  unfold redirect_RtlAllocateHeap, global_heap_alloc. change PTR_SZ with 8. hsimpl.
  rewrite Ew, Z.eqb_refl. hsimpl.
  rewrite (proj2 (Z.leb_le (h_next s + (size + 8)) (h_limit s)) ltac:(lia)). hsimpl.
  rewrite (proj2 (Z.eqb_neq (h_next s) 0) ltac:(lia)). hsimpl. rewrite Hr. hsimpl.
  rewrite (proj2 (Z.eqb_neq _ 0) Hz). unfold memset0. hsimpl.
  eexists. split; [reflexivity |]. hsimpl.
  replace (h_next s + 8 + (size + 8 - 8)) with (h_next s + 8 + size) by ring.
  split; [| split].
  - rewrite (proj2 (Z.leb_gt (h_next s + 8) (h_next s)) ltac:(lia)). simpl.
    now rewrite Z.eqb_refl.
  - intros a Ha. rewrite (proj2 (Z.leb_le _ _) (proj1 Ha)), (proj2 (Z.ltb_lt _ _) (proj2 Ha)).
    reflexivity.
  - intros a Ha.
    destruct ((h_next s + 8 <=? a) && (a <? h_next s + 8 + size)) eqn:E.
    + apply andb_true_iff in E as [E1 E2]. apply Z.leb_le in E1. apply Z.ltb_lt in E2. lia.
    + destruct (Z.eqb a (h_next s)) eqn:E'; [apply Z.eqb_eq in E'; lia | reflexivity].
Qed.

Lemma alloc_zero_memory_witness :
  exists s1,
    redirect_RtlAllocateHeap os_win 5242880 HEAP_ZERO_MEMORY 64 hs0 = Some (HEAP_LO + 8, s1) /\
    h_mem s1 (HEAP_LO + 40) = 0.
Proof.
  destruct (alloc_zero_memory os_win hs0 HEAP_ZERO_MEMORY 64 ltac:(disch) ltac:(disch)
              ltac:(disch) ltac:(disch) ltac:(disch) ltac:(disch)) as (s1 & E & _ & Hz & _).
  exists s1. split; [exact E | apply Hz; disch].
Defined.


Lemma hbind_some {A B} (m : HM A) (k : A -> HM B) s a s1 :
  m s = Some (a, s1) -> hbind m k s = k a s1.
Proof. intros E. unfold hbind. now rewrite E. Qed.




Lemma free_ok (os : os_heap) (s : hstate) (flags ptr : Z) :
  PTR_SZ <= ptr < SIZE_T_MOD ->
  in_ranges ptr (h_dr_areas s) = true ->
  in_ranges (ptr - PTR_SZ) (h_readable s) = true ->
  exists s',
    redirect_RtlFreeHeap os (h_process_heap s) flags ptr s = Some (true, s') /\
    h_freed s' = (ptr - PTR_SZ, h_mem s (ptr - PTR_SZ)) :: h_freed s /\
    h_mem s' = h_mem s /\ h_next s' = h_next s /\ h_native s' = h_native s.
Proof.
  intros Hp Hd Hr. change PTR_SZ with 8 in *.
  unfold redirect_RtlFreeHeap. change PTR_SZ with 8. hsimpl.
  rewrite Z.eqb_refl, Hd, (proj2 (Z.eqb_neq ptr 0) ltac:(lia)). hsimpl.
  rewrite (wrap_id (ptr - 8) ltac:(lia)), Hr. hsimpl.
  eexists. split; [reflexivity |]. hsimpl. auto.
Qed.

(** When the global heap cannot hold the new block,
    [redirect_RtlReAllocateHeap] of a host block returns NULL and still frees
    the old block: its contents are lost. *)
Theorem realloc_exhausted_frees (os : os_heap) (s : hstate) (flags ptr size : Z) :
  h_limit s < h_next s + wrap (size + PTR_SZ) ->
  PTR_SZ <= ptr < SIZE_T_MOD ->
  in_ranges ptr (h_dr_areas s) = true ->
  in_ranges (ptr - PTR_SZ) (h_readable s) = true ->
  exists s',
    redirect_RtlReAllocateHeap os (h_process_heap s) flags ptr size s = Some (0, s') /\
    h_freed s' = (ptr - PTR_SZ, h_mem s (ptr - PTR_SZ)) :: h_freed s /\
    h_mem s' = h_mem s /\ h_next s' = h_next s /\ h_native s' = h_native s.
Proof.
  intros Hl Hp Hd Hr.
  assert (Ea : redirect_RtlAllocateHeap os (h_process_heap s) flags size s = Some (0, s)).
  { unfold redirect_RtlAllocateHeap. rewrite (hbind_some _ _ s s s) by reflexivity.
    rewrite Z.eqb_refl.
    rewrite (hbind_some _ _ s 0 s)
      by (unfold global_heap_alloc; now rewrite (proj2 (Z.leb_gt _ _) Hl)).
    reflexivity. }
  change PTR_SZ with 8 in *.
  unfold redirect_RtlReAllocateHeap.
  rewrite (hbind_some _ _ s s s) by reflexivity.
  rewrite (hbind_some _ _ s true s) by (unfold is_dynamo_address; now rewrite Hd).
  rewrite Z.eqb_refl. cbn [andb orb].
  rewrite (hbind_some _ _ s 0 s Ea). cbn [Z.eqb negb].
  rewrite (hbind_some _ _ s tt s) by reflexivity.
  destruct (free_ok os s flags ptr Hp Hd Hr) as (s' & Ef & P).
  rewrite (hbind_some _ _ s true s' Ef). exists s'. split; [reflexivity | exact P].
Qed.

Lemma realloc_exhausted_frees_witness :
  exists s',
    redirect_RtlReAllocateHeap os_win 5242880 0 (HEAP_LO + 8) (2 ^ 20) hs_two = Some (0, s') /\
    h_freed s' = [(HEAP_LO, 24)].
Proof.
  destruct (realloc_exhausted_frees os_win hs_two 0 (HEAP_LO + 8) (2 ^ 20) ltac:(disch)
              ltac:(disch) ltac:(disch) ltac:(disch)) as (s' & E & Ef & _).
  exists s'. split; [exact E | rewrite Ef; vm_compute; reflexivity].
Defined.



Lemma native_only_logs c s : exists s', native c s = Some (tt, s') /\ only_logs c s s'.
Proof. eexists. split; [reflexivity |]. unfold only_logs. cbn. auto. Qed.

(** For a heap other than the process heap the four redirected heap
    routines call the OS routine with the same arguments and return its result;
    host memory, the global heap and its free record are not touched. *)
Theorem foreign_heap_native (os : os_heap) (s : hstate) (heap flags ptr size : Z) :
  heap <> h_process_heap s ->
  (exists s', redirect_RtlAllocateHeap os heap flags size s
                = Some (RtlAllocateHeap os heap flags size, s') /\
              only_logs (NAlloc heap flags size) s s') /\
  (exists s', redirect_RtlReAllocateHeap os heap flags ptr size s
                = Some (RtlReAllocateHeap os heap flags ptr size, s') /\
              only_logs (NReAlloc heap flags ptr size) s s') /\
  (exists s', redirect_RtlFreeHeap os heap flags ptr s
                = Some (RtlFreeHeap os heap flags ptr, s') /\
              only_logs (NFree heap flags ptr) s s') /\
  (exists s', redirect_RtlSizeHeap os heap flags ptr s
                = Some (RtlSizeHeap os heap flags ptr, s') /\
              only_logs (NSize heap flags ptr) s s').
Proof.
  intros Hh. apply Z.eqb_neq in Hh.
  unfold redirect_RtlAllocateHeap, redirect_RtlReAllocateHeap, redirect_RtlFreeHeap,
    redirect_RtlSizeHeap.
  rewrite !(hbind_some _ _ s s s) by reflexivity.
  rewrite !(hbind_some (is_dynamo_address ptr) _ s _ s) by reflexivity.
  rewrite Hh. cbn [andb].
  repeat split;
  match goal with
  | |- exists s', hbind (native ?c) _ s = _ /\ _ =>
      destruct (native_only_logs c s) as (s' & E & P);
      exists s'; rewrite (hbind_some _ _ s tt s' E); auto
  end.
Qed.

Lemma foreign_heap_native_witness :
  exists s', redirect_RtlFreeHeap os_win 7 0 (HEAP_LO + 8) hs0 = Some (false, s') /\
             only_logs (NFree 7 0 (HEAP_LO + 8)) hs0 s'.
Proof.
  destruct (foreign_heap_native os_win hs0 7 0 (HEAP_LO + 8) 64 ltac:(disch))
    as (_ & _ & H & _).
  exact H.
Defined.

(** On the process heap, a block that is not a host address goes to the OS:
    [redirect_RtlFreeHeap] and [redirect_RtlSizeHeap] always, and
    [redirect_RtlReAllocateHeap] when the block is not NULL. *)
Theorem foreign_block_native (os : os_heap) (s : hstate) (flags ptr size : Z) :
  in_ranges ptr (h_dr_areas s) = false ->
  (ptr <> 0 ->
   exists s', redirect_RtlReAllocateHeap os (h_process_heap s) flags ptr size s
                = Some (RtlReAllocateHeap os (h_process_heap s) flags ptr size, s') /\
              only_logs (NReAlloc (h_process_heap s) flags ptr size) s s') /\
  (exists s', redirect_RtlFreeHeap os (h_process_heap s) flags ptr s
                = Some (RtlFreeHeap os (h_process_heap s) flags ptr, s') /\
              only_logs (NFree (h_process_heap s) flags ptr) s s') /\
  (exists s', redirect_RtlSizeHeap os (h_process_heap s) flags ptr s
                = Some (RtlSizeHeap os (h_process_heap s) flags ptr, s') /\
              only_logs (NSize (h_process_heap s) flags ptr) s s').
Proof.
  intros Hd.
  unfold redirect_RtlReAllocateHeap, redirect_RtlFreeHeap, redirect_RtlSizeHeap.
  rewrite !(hbind_some _ _ s s s) by reflexivity.
  rewrite !(hbind_some (is_dynamo_address ptr) _ s false s)
    by (unfold is_dynamo_address; now rewrite Hd).
  rewrite Z.eqb_refl. cbn [andb orb].
  split; [intros Hp; rewrite (proj2 (Z.eqb_neq ptr 0) Hp) | split];
  match goal with
  | |- exists s', hbind (native ?c) _ s = _ /\ _ =>
      destruct (native_only_logs c s) as (s' & E & P);
      exists s'; rewrite (hbind_some _ _ s tt s' E); auto
  end.
Qed.

Lemma foreign_block_native_witness :
  exists s', redirect_RtlSizeHeap os_win 5242880 0 1048576 hs0 = Some (0, s') /\
             only_logs (NSize 5242880 0 1048576) hs0 s'.
Proof.
  destruct (foreign_block_native os_win hs0 0 1048576 64 ltac:(disch)) as (_ & _ & H).
  exact H.
Defined.


(** [redirect_RtlFreeUnicodeString], [redirect_RtlFreeAnsiString] and
    [redirect_RtlFreeOemString] pass a string whose buffer is not a host address
    to the matching OS routine and change no heap state; a host buffer is freed
    to the global heap with its recorded size and the string is zeroed. *)
Theorem free_string_redirect (os : os_heap) (oss : os_string) (str : counted_string)
  (s : hstate) F native_free :
  (F, native_free) = (redirect_RtlFreeUnicodeString os oss, RtlFreeUnicodeString oss) \/
  (F, native_free) = (redirect_RtlFreeAnsiString os oss, RtlFreeAnsiString oss) \/
  (F, native_free) = (redirect_RtlFreeOemString os oss, RtlFreeOemString oss) ->
  (in_ranges (cs_Buffer str) (h_dr_areas s) = false ->
   F str s = Some (native_free str, s)) /\
  (PTR_SZ <= cs_Buffer str < SIZE_T_MOD ->
   in_ranges (cs_Buffer str) (h_dr_areas s) = true ->
   in_ranges (cs_Buffer str - PTR_SZ) (h_readable s) = true ->
   exists s', F str s = Some (zero_string, s') /\
     h_freed s' = (cs_Buffer str - PTR_SZ, h_mem s (cs_Buffer str - PTR_SZ)) :: h_freed s /\
     h_mem s' = h_mem s /\ h_native s' = h_native s).
Proof.
  intros HF.
  assert (HF' : F = redirect_free_string os native_free).
  { destruct HF as [E | [E | E]]; injection E as -> ->; reflexivity. }
  subst F. unfold redirect_free_string. split.
  - intros Hd. rewrite (hbind_some _ _ s false s) by (unfold is_dynamo_address; now rewrite Hd).
    reflexivity.
  - intros Hp Hd Hr.
    rewrite (hbind_some _ _ s true s) by (unfold is_dynamo_address; now rewrite Hd).
    rewrite (hbind_some _ _ s s s) by reflexivity.
    destruct (free_ok os s 0 (cs_Buffer str) Hp Hd Hr) as (s' & Ef & Pf & Pm & _ & Pn).
    rewrite (hbind_some _ _ s true s' Ef). exists s'. auto.
Qed.

Lemma free_string_redirect_witness :
  let oss := {| RtlFreeUnicodeString := fun _ => zero_string;
                RtlFreeAnsiString := fun _ => zero_string;
                RtlFreeOemString := fun _ => zero_string |} in
  let str := {| cs_Length := 8; cs_MaximumLength := 16; cs_Buffer := HEAP_LO + 8 |} in
  exists s', redirect_RtlFreeUnicodeString os_win oss str hs_two = Some (zero_string, s') /\
             h_freed s' = [(HEAP_LO, 24)].
Proof.
  intros oss str.
  destruct (free_string_redirect os_win oss str hs_two
              (redirect_RtlFreeUnicodeString os_win oss) (RtlFreeUnicodeString oss)
              ltac:(left; reflexivity)) as [_ H].
  destruct (H ltac:(disch) ltac:(disch) ltac:(disch)) as (s' & E & Ef & _).
  exists s'. split; [exact E | rewrite Ef; vm_compute; reflexivity].
Defined.

End HeapFacts.

(** ** Fiber-local storage callbacks *)

Module FlsFacts.
Import Fls.

Lemma cb_registered_existsb (l : list Z) (pc : Z) :
  existsb (fun e => andb (negb (Z.eqb e 0)) (Z.eqb e pc)) l = true <-> pc <> 0 /\ In pc l.
Proof.
  rewrite existsb_exists. split.
  - intros (e & Hin & He). apply andb_true_iff in He as [H0 H1].
    apply Z.eqb_eq in H1. subst e. apply negb_true_iff, Z.eqb_neq in H0. auto.
  - intros (H0 & Hin). exists pc. split; [exact Hin |].
    apply andb_true_iff. split; [apply negb_true_iff, Z.eqb_neq; exact H0 | apply Z.eqb_refl].
Qed.

(** A fiber-local storage callback inside a private library registered by
    [redirect_FlsAlloc] (after [loader_init]) becomes a host area, and when
    the thread later reaches it [private_lib_handle_cb] runs it natively with
    the argument register, pops the return address and continues at it;
    [redirect_FlsAlloc] returns the OS [FlsAlloc] index. *)
Theorem fls_alloc_then_callback (FlsAlloc : Z -> Z) (ls : state) (cb : Z) (s : fls_state) :
  fst (in_private_library cb ls) = true ->
  fls_cb_list s <> [] ->
  cb <> 0 ->
  Heap.in_ranges (xsp (f_mc s)) (f_readable s) = true ->
  exists s1,
    redirect_FlsAlloc FlsAlloc ls cb s = Some (FlsAlloc cb, s1) /\
    Heap.in_ranges cb (f_dr_areas s1) = true /\
    fst (private_lib_handle_cb cb s1) = true /\
    xsp (f_mc (snd (private_lib_handle_cb cb s1))) = xsp (f_mc s) + XSP_SZ /\
    f_next_tag (snd (private_lib_handle_cb cb s1)) = f_mem s (xsp (f_mc s)) /\
    f_calls (snd (private_lib_handle_cb cb s1)) = (cb, xcx (f_mc s)) :: f_calls s.
Proof.
  intros Hp Hl H0 Hr. unfold redirect_FlsAlloc. rewrite Hp.
  destruct (fls_cb_list s) as [| hd rest] eqn:El; [congruence |].
  set (s1 := set_cb_list (hd :: cb :: rest) s).
  assert (Hreg : existsb (fun e => andb (negb (Z.eqb e 0)) (Z.eqb e cb)) (hd :: cb :: rest) = true)
    by (apply cb_registered_existsb; split; [exact H0 | right; left; reflexivity]).
  destruct (Heap.in_ranges cb (f_dr_areas s1)) eqn:Ed;
  eexists; (split; [reflexivity |]);
  unfold private_lib_handle_cb; cbn [fls_cb_list f_readable f_mc f_mem set_dr_areas s1 set_cb_list];
  rewrite Hreg, Hr; cbn.
  - cbn in Ed. rewrite Ed. auto.
  - rewrite Z.leb_refl, (proj2 (Z.ltb_lt cb (cb + 1)) ltac:(lia)). auto.
Qed.

Lemma fls_alloc_then_callback_witness :
  exists s1,
    redirect_FlsAlloc (fun _ => 1) s_A (FIRST_MAP + 4096) fls0 = Some (1, s1) /\
    fst (private_lib_handle_cb (FIRST_MAP + 4096) s1) = true /\
    f_next_tag (snd (private_lib_handle_cb (FIRST_MAP + 4096) s1)) = 4096.
Proof.
  destruct (fls_alloc_then_callback (fun _ => 1) s_A (FIRST_MAP + 4096) fls0
              ltac:(vm_compute; reflexivity) ltac:(vm_compute; discriminate)
              ltac:(vm_compute; discriminate) ltac:(vm_compute; reflexivity))
    as (s1 & E & _ & Hb & _ & Ht & _).
  exists s1. split; [exact E | split; [exact Hb | rewrite Ht; reflexivity]].
Defined.


(** [private_lib_handle_cb] redirects nothing and changes nothing when the
    address is NULL, is no registered callback, or the stack pointer cannot be
    read. *)
Theorem handle_cb_not_redirected (pc : Z) (s : fls_state) :
  pc = 0 \/ ~ In pc (fls_cb_list s) \/
  Heap.in_ranges (xsp (f_mc s)) (f_readable s) = false ->
  private_lib_handle_cb pc s = (false, s).
Proof.
  intros H. unfold private_lib_handle_cb.
  destruct (existsb _ (fls_cb_list s)) eqn:E; [| reflexivity].
  apply cb_registered_existsb in E.
  destruct H as [H | [H | H]]; [tauto | tauto | now rewrite H].
Qed.

Lemma handle_cb_not_redirected_witness :
  private_lib_handle_cb 4096 fls0 = (false, fls0).
Proof.
  apply handle_cb_not_redirected. right. left. simpl. intros [H | []]. discriminate.
Defined.

End FlsFacts.

(** ** Binding and locating imports *)

(** A by-name import that the imported module exports directly is bound to
    the private replacement routine when the imported module has one for the
    name, and to the exported address otherwise; only the IAT slot is
    written. *)
Theorem process_one_import_by_name (locate : string -> Z -> M (option Z)) (bound : nat)
  (md impmod lookup address : Z) (s : state) (i ii : image) (n : string) (r : Z) :
  let v := st_mem s lookup in
  Z.land IMAGE_ORDINAL_FLAG v = 0 ->
  assoc md (st_maps s) = Some i ->
  assoc (Z.land v (Z.lnot IMAGE_ORDINAL_FLAG)) (im_hintnames i) = Some n ->
  assoc impmod (st_maps s) = Some ii ->
  assoc_str n (im_exports ii) = Some (ExpFunc r) ->
  privload_process_one_import locate bound md impmod lookup address s =
  (true, set_mem (fun x => if Z.eqb x address
                           then match fst (privload_redirect_imports impmod n s) with
                                | Some d => d | None => impmod + r end
                           else st_mem s x) s).
Proof.
  cbv zeta. intros Hv Hi Hn Hii Hr.
  unfold privload_process_one_import, read_word, bind at 1. rewrite Hv. cbn [Z.eqb negb].
  unfold image_at, bind at 1. rewrite Hi, Hn.
  unfold get_proc_address_ex, image_at, bind at 1. unfold bind at 1. rewrite Hii, Hr.
  cbn [ret fst snd].
  assert (Hf : forall k, forward_loop locate k md (Some (impmod + r)) None impmod n s
                         = (Some (impmod + r, impmod, n), s)) by (destruct k; reflexivity).
  unfold bind at 1. rewrite Hf.
  unfold privload_redirect_imports, get_mod, bind, ret, write_word, modify. reflexivity.
Qed.

Lemma process_one_import_by_name_witness :
  st_mem (snd (privload_process_one_import (privload_locate_and_load (privload_load FUEL))
                 FUEL FIRST_MAP B_BASE (FIRST_MAP + 8192) (FIRST_MAP + 12288) s_A))
    (FIRST_MAP + 12288) = B_BASE + 4352.
Proof.
  rewrite (process_one_import_by_name (privload_locate_and_load (privload_load FUEL)) FUEL
             FIRST_MAP B_BASE (FIRST_MAP + 8192) (FIRST_MAP + 12288) s_A A_img B_img "Foo" 4352);
    vm_compute; reflexivity.
Defined.


Lemma try_path_systemroot (load : string -> option Z -> M (option Z)) p d s :
  (forall p d s, st_systemroot (snd (load p d s)) = st_systemroot s) ->
  st_systemroot (snd (try_path load p d s)) = st_systemroot s.
Proof.
  intros Hl. unfold try_path, bind, get. destruct (st_fs s p); [apply Hl | reflexivity].
Qed.

(** [privload_locate_and_load] tries, in order, each client library
    directory, then [<systemroot>/system32] and [<systemroot>] (only when the
    system root is set), and loads the first candidate path that exists
    (assuming the load keeps the system root). *)
Theorem locate_and_load_order (load : string -> option Z -> M (option Z))
  (impname : string) (dependent : Z) (s : state) :
  (forall p d s, st_systemroot (snd (load p d s)) = st_systemroot s) ->
  privload_locate_and_load load impname dependent s
  = try_candidates load (locate_candidates s impname) dependent s.
Proof.
  intros Hl. unfold privload_locate_and_load, locate_candidates.
  set (R := st_systemroot s).
  set (sys := if String.eqb R EmptyString then []
              else [modpath_of (R ++ "/system32/" ++ impname);
                    modpath_of (R ++ "/" ++ impname)]).
  assert (Htail : forall s', st_systemroot s' = R ->
    (s0 <- get ;;
     if String.eqb (st_systemroot s0) EmptyString then ret None
     else r3 <- try_path load (modpath_of (st_systemroot s0 ++ "/system32/" ++ impname)) dependent ;;
          match r3 with
          | Some m => ret (Some m)
          | None => try_path load (modpath_of (st_systemroot s0 ++ "/" ++ impname)) dependent
          end) s' = try_candidates load sys dependent s').
  { intros s' Hs. unfold sys. unfold bind at 1, get. rewrite Hs.
    destruct (String.eqb R EmptyString); [reflexivity |].
    cbn [try_candidates]. unfold bind, ret.
    destruct (try_path load _ dependent s') as [[m |] s1]; [reflexivity |].
    destruct (try_path load _ dependent s1) as [[m |] s2]; reflexivity. }
  assert (Hdirs : forall dirs s', st_systemroot s' = R ->
    (r <- try_dirs load dirs impname dependent ;;
     match r with
     | Some m => ret (Some m)
     | None =>
         s0 <- get ;;
         if String.eqb (st_systemroot s0) EmptyString then ret None
         else r3 <- try_path load (modpath_of (st_systemroot s0 ++ "/system32/" ++ impname)) dependent ;;
              match r3 with
              | Some m => ret (Some m)
              | None => try_path load (modpath_of (st_systemroot s0 ++ "/" ++ impname)) dependent
              end
     end) s'
    = try_candidates load (map (fun d => modpath_of (d ++ "/" ++ impname)) dirs ++ sys)
        dependent s').
  { induction dirs as [| d ds IH]; intros s' Hs.
    - cbn [try_dirs map app]. rewrite <- (Htail s' Hs). reflexivity.
    - cbn [try_dirs map app try_candidates].
      pose proof (try_path_systemroot load (modpath_of (d ++ "/" ++ impname)) dependent s' Hl) as Hr.
      specialize (fun s1 H => IH s1 H). clear Htail.
      unfold bind, ret in IH |- *. cbv beta in IH |- *.
      destruct (try_path load _ dependent s') as [[m |] s1]; cbn [snd] in Hr.
      + reflexivity.
      + rewrite <- IH by congruence. reflexivity. }
  unfold bind at 1 2, get at 1. apply Hdirs. reflexivity.
Qed.

Lemma locate_and_load_order_witness :
  let load p (d : option Z) := bind (privload_insert None 1 4096 p) (fun b => ret (Some b)) in
  privload_locate_and_load load "B.dll" 0 s_init
  = try_candidates load ["C:/Windows/system32/B.dll"; "C:/Windows/B.dll"]%string 0 s_init.
Proof.
  intros load.
  rewrite (locate_and_load_order load "B.dll" 0 s_init ltac:(intros; reflexivity)).
  reflexivity.
Defined.

